(** * Afton validation study: DAM clean-up and REM deviation engine

    A shallow embedding of
      - [src/dam/models/dam.py]      ([organize_data],
        [remove_incomplete_datasets], [COMPARISONS], [NOISE_TRACKS]);
      - [src/rem/models/datamodel.py] ([DataModel._assign_form_factors],
        [collapse_form_factors], [_diff_from_estat], [_diff_from_endstudy],
        [_diff_between_bestfit_targetmatch]).

    Conventions.
      - Every cell that the programs only compare or copy is a [string];
        the dB levels of the REM tables are the cells of int64 columns,
        integers ([Z]) with the arithmetic of such columns written out
        ([series_sub]); a missing value (pandas' NaN) is [None].
      - A pandas [DataFrame] that a function mutates is an object in a
        store; a function that only reads its argument is a function on
        the table's rows.
      - Python's exceptions are the constructors of [exn]. *)

From Stdlib Require Import List String Ascii ZArith Bool Lia Permutation.
From stdpp Require Import gmap strings list sorting.

Import ListNotations.
Local Open Scope string_scope.
Local Open Scope list_scope.

(** ** Python and pandas primitives *)

Module Py.

(** The built-in exceptions the embedded code can raise. *)
Inductive exn : Type :=
| IndexError   (* [z[4]] on a short list *)
| KeyError     (* [d[k]] on an absent key *)
| ValueError.  (* [DataFrame.insert] of a column that exists *)

(** Outcome of a call: a value, or an exception that unwinds. *)
Inductive result (A : Type) : Type :=
| Ok (a : A)
| Raise (e : exn).
Arguments Ok {A} a.
Arguments Raise {A} e.

Definition is_ok {A} (r : result A) : bool :=
  match r with Ok _ => true | Raise _ => false end.

(** [s.split(sep)] for a one-character separator. The result is never
    empty: [''.split('_') = ['']]. *)
Fixpoint split (sep : ascii) (s : string) : list string :=
  match s with
  | EmptyString => [EmptyString]
  | String c s' =>
      if Ascii.eqb c sep then EmptyString :: split sep s'
      else match split sep s' with
           | [] => [String c EmptyString]
           | t :: ts => String c t :: ts
           end
  end.

(** [l[i]] for a non-negative index. *)
Definition getitem {A} (l : list A) (i : nat) : result A :=
  match nth_error l i with
  | Some x => Ok x
  | None => Raise IndexError
  end.

(** [d[k]] on a dict. *)
Definition dict_getitem {V} (d : gmap string V) (k : string) : result V :=
  match d !! k with
  | Some v => Ok v
  | None => Raise KeyError
  end.

(** [x in l] on a list of strings. *)
Definition contains (l : list string) (x : string) : bool :=
  existsb (String.eqb x) l.

(** [Series.apply(f)]: [f] runs on the cells in order, the first
    exception unwinds and no Series is produced. *)
Fixpoint series_apply {A B} (f : A -> result B) (s : list A)
  : result (list B) :=
  match s with
  | [] => Ok []
  | x :: s' =>
      match f x with
      | Raise e => Raise e
      | Ok y =>
          match series_apply f s' with
          | Raise e => Raise e
          | Ok ys => Ok (y :: ys)
          end
      end
  end.

(** [Series.unique()]: the distinct values in order of first
    appearance. *)
Fixpoint unique `{EqDecision A} (l : list A) : list A :=
  match l with
  | [] => []
  | x :: l' =>
      x :: List.filter (fun y => negb (bool_decide (y = x))) (unique l')
  end.

(** A dict after the assignments [d[k] = v] for the pairs of [l], in
    order. *)
Definition store_all {V} (l : list (string * V)) (d : gmap string V)
  : gmap string V :=
  fold_left (fun d kv => <[kv.1 := kv.2]> d) l d.

End Py.

Import Py.

(** ** DAM: [src/dam/models/dam.py] *)

Module Dam.

Definition NOISE_TRACKS : list string :=
  ["119"; "205"; "193"; "181"; "170"; "182"; "160"; "71"].

Definition COMPARISONS : gmap string string :=
  list_to_map
    [ ("DAM_3-DAM_OFF", "DAM_OFF-DAM_3");
      ("DAM_4-DAM_3",   "DAM_3-DAM_4");
      ("DAM_3-MNR_3",   "MNR_3-DAM_3");
      ("DAM_OFF-DAM_3", "DAM_OFF-DAM_3");
      ("DAM_3-DAM_4",   "DAM_3-DAM_4");
      ("MNR_3-DAM_3",   "MNR_3-DAM_3") ].

(** One trial of a raw Vesta export. [other] holds the cells of the
    columns the module never reads. *)
Record raw_row : Type := RawRow {
  subject    : string;
  condition  : string;
  button_A   : string;
  button_B   : string;
  audio_file : string;
  outcome    : string;
  other      : list string
}.

(** The DataFrame object [organize_data] works on: the raw rows and the
    four columns the function adds, [None] while a column does not
    exist. *)
Record DataFrame : Type := Frame {
  rows           : list raw_row;
  col_comparison : option (list string);
  col_snr        : option (list string);
  col_tracks     : option (list string);
  col_type       : option (list string)
}.

Definition raw_frame (rs : list raw_row) : DataFrame :=
  Frame rs None None None None.

Definition set_comparison (c : list string) (df : DataFrame) : DataFrame :=
  Frame (rows df) (Some c) (col_snr df) (col_tracks df) (col_type df).
Definition set_snr (c : list string) (df : DataFrame) : DataFrame :=
  Frame (rows df) (col_comparison df) (Some c) (col_tracks df) (col_type df).
Definition set_tracks (c : list string) (df : DataFrame) : DataFrame :=
  Frame (rows df) (col_comparison df) (col_snr df) (Some c) (col_type df).
Definition set_type (c : list string) (df : DataFrame) : DataFrame :=
  Frame (rows df) (col_comparison df) (col_snr df) (col_tracks df) (Some c).

#[global] Instance DataFrame_inhabited : Inhabited DataFrame :=
  populate (raw_frame []).

(** *** The store of DataFrame objects and the monad of the module *)

Abbreviation ref := nat (only parsing).
Abbreviation heap := (gmap nat DataFrame) (only parsing).

(** A computation reads and updates the store and either returns or
    raises; what it wrote before raising stays written. *)
Definition M (A : Type) : Type := heap -> heap * result A.

Definition ret {A} (a : A) : M A := fun h => (h, Ok a).
Definition raise {A} (e : exn) : M A := fun h => (h, Raise e).
Definition bind {A B} (c : M A) (k : A -> M B) : M B :=
  fun h => match c h with
           | (h', Ok a) => k a h'
           | (h', Raise e) => (h', Raise e)
           end.
Definition lift {A} (r : result A) : M A := fun h => (h, r).
Definition read (p : ref) : M DataFrame :=
  fun h => (h, Ok (h !!! p)).
Definition modify (p : ref) (f : DataFrame -> DataFrame) : M unit :=
  fun h => (<[p := f (h !!! p)]> h, Ok tt).

#[global] Instance M_ret : MRet M := @ret.
#[global] Instance M_bind : MBind M := fun A B k c => bind c k.

(** [data.insert(loc=6, column='comparison', value=v)]: pandas refuses
    a column name that is already there. (The raw export has at least
    the six named columns, so position 6 exists.) *)
Definition insert_comparison (data : ref) (v : list string) : M unit :=
  df ← read data;
  match col_comparison df with
  | Some _ => raise ValueError
  | None => modify data (set_comparison v)
  end.

Definition type_of_track (value : string) : string :=
  if contains NOISE_TRACKS value then "noise" else "pref".

(** [organize_data(data)]. Every step works on the caller's object
    [data]; the function returns that same object. *)
Definition organize_data (data : ref) : M ref :=
  df ← read data;
  insert_comparison data
    (map (fun r => (button_A r ++ "-" ++ button_B r)%string) (rows df));;
  df ← read data;
  let split_values := map (fun r => split "_" (audio_file r)) (rows df) in
  snrs ← lift (series_apply (fun z => getitem z 4) split_values);
  modify data (set_snr snrs);;
  tracks ← lift (series_apply (fun z => getitem z 0) split_values);
  modify data (set_tracks tracks);;
  df ← read data;
  modify data (set_type (map type_of_track (default [] (col_tracks df))));;
  df ← read data;
  canon ← lift (series_apply (dict_getitem COMPARISONS)
                  (default [] (col_comparison df)));
  modify data (set_comparison canon);;
  ret data.

(** What [organize_data] derives from one raw row, when it derives it. *)
Definition raw_comparison (r : raw_row) : string :=
  (button_A r ++ "-" ++ button_B r)%string.
Definition tokens (r : raw_row) : list string := split "_" (audio_file r).
Definition snr_of (r : raw_row) : string := nth 4 (tokens r) "".
Definition track_of (r : raw_row) : string := nth 0 (tokens r) "".
Definition canonical (r : raw_row) : string :=
  default "" (COMPARISONS !! raw_comparison r).

(** The two conditions on a raw row under which [organize_data] goes
    through. *)
Definition well_named (r : raw_row) : bool := Nat.leb 5 (length (tokens r)).
Definition known_comparison (r : raw_row) : bool :=
  bool_decide (is_Some (COMPARISONS !! raw_comparison r)).

(** The table [organize_data] leaves behind on well-formed rows. *)
Definition organized (rs : list raw_row) : DataFrame :=
  Frame rs (Some (map canonical rs)) (Some (map snr_of rs))
    (Some (map track_of rs))
    (Some (map (fun r => type_of_track (track_of r)) rs)).

(** A one-row raw table held by the caller under reference 0. *)
Definition sample_row : raw_row :=
  RawRow "1" "A" "DAM_3" "DAM_OFF" "31_x_x_x_5_x" "A" [].
Definition sample_heap : gmap nat DataFrame :=
  {[ 0%nat := raw_frame [sample_row] ]}.

(** *** Organized tables

    A row of the table [organize_data] returns: the raw cells and the
    four derived ones. *)
Record drow : Type := DRow {
  d_raw      : raw_row;
  comparison : string;
  snr        : string;
  tracks     : string;
  type       : string
}.

#[global] Instance raw_row_eq_dec : EqDecision raw_row.
Proof. solve_decision. Defined.
#[global] Instance drow_eq_dec : EqDecision drow.
Proof. solve_decision. Defined.

(** The rows of a frame in which the four derived columns exist. *)
Definition records (df : DataFrame) : option (list drow) :=
  match col_comparison df, col_snr df, col_tracks df, col_type df with
  | Some cs, Some ns, Some ts, Some ys =>
      Some (map (fun x => match x with
                          | (r, (c, (n, (t, y)))) => DRow r c n t y
                          end)
              (combine (rows df) (combine cs (combine ns (combine ts ys)))))
  | _, _, _, _ => None
  end.

(** The MultiIndex entry of a row after
    [set_index(['subject', 'comparison', 'snr', 'condition'])]. *)
Definition key : Type := string * string * string * string.

Definition index_of (r : drow) : key :=
  (subject (d_raw r), comparison r, snr r, condition (d_raw r)).

Definition has_index (k : key) (r : drow) : bool :=
  bool_decide (index_of r = k).

(** Number of columns left beside the index: the two buttons, the audio
    file, the outcome, [tracks], [type] and the unread ones. *)
Definition width (r : drow) : nat := 6 + length (other (d_raw r)).

(** Tuples compare lexicographically. The cells are strings here and
    compare as such; what is proved of the sorted table uses only that
    the entries are totally ordered. *)
Definition key_leb (a b : key) : bool :=
  match a, b with
  | (s1, c1, n1, d1), (s2, c2, n2, d2) =>
      match String.compare s1 s2 with
      | Lt => true | Gt => false
      | Eq =>
          match String.compare c1 c2 with
          | Lt => true | Gt => false
          | Eq =>
              match String.compare n1 n2 with
              | Lt => true | Gt => false
              | Eq => String.leb d1 d2
              end
          end
      end
  end.

Definition index_le (r1 r2 : drow) : Prop :=
  Is_true (key_leb (index_of r1) (index_of r2)).

#[global] Instance index_le_dec : RelDecision index_le.
Proof. intros r1 r2. unfold index_le. apply _. Defined.

(** [df.sort_index(level=[...], inplace=True)]: the rows in ascending
    order of their index entries; the sort is stable, rows with the same
    entry keep their order. A row is put in front of the first row whose
    entry is not below its own. *)
Fixpoint insert_row (r : drow) (df : list drow) : list drow :=
  match df with
  | [] => [r]
  | x :: df' =>
      if key_leb (index_of r) (index_of x) then r :: x :: df'
      else x :: insert_row r df'
  end.

Definition sort_index (df : list drow) : list drow :=
  fold_right insert_row [] df.

(** What [df.loc[k]] evaluates to for a full-depth key: a Series (one
    row) when the index has no duplicate entry, a DataFrame (the rows
    with that entry) otherwise. *)
Inductive selection : Type :=
| OneRow (r : drow)
| SubFrame (m : list drow).

Definition index_is_unique (df : list drow) : bool :=
  bool_decide (NoDup (map index_of df)).

(** [df.loc[k]]; [None] is the [KeyError] of an absent entry. *)
Definition loc (df : list drow) (k : key) : option selection :=
  match List.filter (has_index k) df with
  | [] => None
  | (r :: _) as m =>
      Some (if index_is_unique df then OneRow r else SubFrame m)
  end.

(** [temp.shape[0]]: the length of a Series (its number of cells) or
    the number of rows of a DataFrame. *)
Definition shape0 (temp : selection) : nat :=
  match temp with
  | OneRow r => width r
  | SubFrame m => length m
  end.

(** [df.drop(k, axis=0, inplace=True)]. *)
Definition drop (df : list drow) (k : key) : list drow :=
  List.filter (fun r => negb (has_index k r)) df.

(** The body of the innermost loop, [try: ... except KeyError: continue]. *)
Definition check (df : list drow) (k : key) : list drow :=
  match loc df k with
  | None => df
  | Some temp => if Nat.eqb (shape0 temp) 4 then df else drop df k
  end.

(** The body of [for df in df_list]. *)
Definition clean (df : list drow) : list drow :=
  let subject_ids := unique (map (fun r => subject (d_raw r)) df) in
  let conditions := unique (map (fun r => condition (d_raw r)) df) in
  let snrs := unique (map snr df) in
  let comparisons := unique (map comparison df) in
  let df := sort_index df in
  fold_left (fun df subject =>
    fold_left (fun df comparison =>
      fold_left (fun df snr =>
        fold_left (fun df condition =>
          check df (subject, comparison, snr, condition))
          conditions df)
        snrs df)
      comparisons df)
    subject_ids df.

(** The index entries the four nested loops visit, in their order. *)
Definition visited (subject_ids comparisons snrs conditions : list string)
  : list key :=
  flat_map (fun subject =>
    flat_map (fun comparison =>
      flat_map (fun snr =>
        map (fun condition => (subject, comparison, snr, condition))
          conditions)
        snrs)
      comparisons)
    subject_ids.

Definition is_pref (r : drow) : bool := String.eqb (type r) "pref".

(** [remove_incomplete_datasets(data)], reading [data] only. The result
    lists the rows of the returned table. That table has the four key
    columns in its index, not among its columns: it is no argument for
    the function again, whose [df["subject"]] would raise [KeyError]. *)
Definition remove_incomplete_datasets (data : list drow) : list drow :=
  let prefs := List.filter is_pref data in
  let noise := List.filter (fun r => negb (is_pref r)) data in
  clean prefs ++ clean noise.

(** Two rows are in one completeness group: same trial type partition
    and same index entry. *)
Definition same_group (r r' : drow) : bool :=
  Bool.eqb (is_pref r) (is_pref r') && has_index (index_of r) r'.

Definition group_size (data : list drow) (r : drow) : nat :=
  length (List.filter (same_group r) data).

Definition complete (data : list drow) (r : drow) : bool :=
  Nat.eqb (group_size data r) 4.

(** A table with a full group (subject 1) and a group of which two of
    the four trials are there (subject 2). *)
Definition trial (subject type : string) : drow :=
  DRow (RawRow subject "A" "DAM_3" "DAM_OFF" "31_x_x_x_5_x" "A" [])
    "DAM_OFF-DAM_3" "5" "31" type.
Definition partial_table : list drow :=
  [ trial "1" "pref"; trial "2" "pref"; trial "1" "pref";
    trial "1" "pref"; trial "2" "pref"; trial "1" "pref" ].

(** The other strategy of the specification, in its words: "enumerate
    only the distinct group keys present in the data" and check each
    group's size against 4. *)
Definition rows_at (df : list drow) (k : key) : nat :=
  length (List.filter (has_index k) df).

Definition check_present (df : list drow) (k : key) : list drow :=
  if Nat.eqb (rows_at df k) 4 then df else drop df k.

Definition four_at (df : list drow) (r : drow) : bool :=
  Nat.eqb (rows_at df (index_of r)) 4.

(** The rows left once the entries [ks] have been checked: those under
    an entry not checked yet, and those in a group of four. *)
Definition keep (ks : list key) (df : list drow) (r : drow) : bool :=
  negb (existsb (fun k => has_index k r) ks)
  || Nat.eqb (rows_at df (index_of r)) 4.

(** The trials of two subjects, told apart by their outcome and given
    in mixed order; subject 3 has one trial only. *)
Definition answer (subject outcome : string) : drow :=
  DRow (RawRow subject "A" "DAM_3" "DAM_OFF" "31_x_x_x_5_x" outcome [])
    "DAM_OFF-DAM_3" "5" "31" "pref".
Definition mixed_table : list drow :=
  [ answer "2" "a"; answer "1" "a"; answer "3" "a"; answer "2" "b";
    answer "1" "b"; answer "1" "c"; answer "2" "c"; answer "2" "d";
    answer "1" "d" ].

(** The rows of every index entry stand next to each other in [l]. *)
Definition adjacent_groups (l : list drow) : Prop :=
  forall k, exists before after,
    l = before ++ List.filter (has_index k) l ++ after
    /\ Forall (fun r => has_index k r = false) before
    /\ Forall (fun r => has_index k r = false) after.

(** Under every index entry [out] has the rows that [part] has under
    it, in the order of [part], when they are four, and none
    otherwise. *)
Definition groups_in_input_order (part out : list drow) : Prop :=
  forall k,
    List.filter (has_index k) out
    = if Nat.eqb (rows_at part k) 4 then List.filter (has_index k) part
      else [].

Definition clean_present_keys (df : list drow) : list drow :=
  let keys := unique (map index_of df) in
  fold_left check_present keys (sort_index df).

Definition remove_incomplete_present_keys (data : list drow) : list drow :=
  let prefs := List.filter is_pref data in
  let noise := List.filter (fun r => negb (is_pref r)) data in
  clean_present_keys prefs ++ clean_present_keys noise.

(** *** From raw rows to organized rows *)

(** The organized row [organize_data] makes of a raw row. *)
Definition organize_row (r : raw_row) : drow :=
  DRow r (canonical r) (snr_of r) (track_of r) (type_of_track (track_of r)).

(** Two raw rows end up in one completeness group: both noise trials or
    both not, and same subject, canonical comparison, SNR token and
    condition. *)
Definition raw_same_group (r r' : raw_row) : bool :=
  Bool.eqb (contains NOISE_TRACKS (track_of r))
           (contains NOISE_TRACKS (track_of r'))
  && bool_decide (subject r' = subject r)
  && bool_decide (canonical r' = canonical r)
  && bool_decide (snr_of r' = snr_of r)
  && bool_decide (condition r' = condition r).

Definition raw_group_size (rs : list raw_row) (r : raw_row) : nat :=
  length (List.filter (raw_same_group r) rs).

(** The table a failed call leaves behind: after [IndexError] only the
    raw comparison column is there; after [KeyError] the four columns
    are, the comparison not yet turned. *)
Definition after_index_error (rs : list raw_row) : DataFrame :=
  Frame rs (Some (map raw_comparison rs)) None None None.

Definition after_key_error (rs : list raw_row) : DataFrame :=
  Frame rs (Some (map raw_comparison rs)) (Some (map snr_of rs))
    (Some (map track_of rs))
    (Some (map (fun r => type_of_track (track_of r)) rs)).

(** A raw row with a three-token audio file name, and one with
    unknown buttons. *)
Definition short_name_row : raw_row :=
  RawRow "1" "A" "DAM_3" "DAM_OFF" "31_x_5" "A" [].
Definition unknown_buttons_row : raw_row :=
  RawRow "1" "A" "DAM_9" "DAM_OFF" "31_x_x_x_5_x" "A" [].

(** The ways to write [s] as [a ++ "-" ++ b]. *)
Fixpoint hyphen_cuts (s : string) : list (string * string) :=
  match s with
  | EmptyString => []
  | String c s' =>
      (if Ascii.eqb c "-" then [(EmptyString, s')] else [])
      ++ map (fun ab => (String c ab.1, ab.2)) (hyphen_cuts s')
  end.

End Dam.

(** ** REM: [src/rem/models/datamodel.py] *)

Module Rem.

(** A row of the Verifit table after [_organize_verifit_data]: columns
    [subject, condition, form_factor, freq, left65, right65]. *)
Record vrow : Type := VRow {
  subject     : string;
  condition   : string;
  form_factor : string;
  freq        : Z;
  left65      : Z;
  right65     : Z
}.

(** A row of the e-STAT table after [_organize_estat_data]: columns
    [subject, form_factor, freq, left, right]. *)
Record erow : Type := ERow {
  esubject     : string;
  eform_factor : string;
  efreq        : Z;
  left         : Z;
  right        : Z
}.

(** A Verifit row with the two columns the difference methods add;
    [None] is NaN. *)
Record dev : Type := Dev {
  measured   : vrow;
  left_diff  : option Z;
  right_diff : option Z
}.

#[global] Instance vrow_eq_dec : EqDecision vrow.
Proof. solve_decision. Defined.
#[global] Instance erow_eq_dec : EqDecision erow.
Proof. solve_decision. Defined.
#[global] Instance dev_eq_dec : EqDecision dev.
Proof. solve_decision. Defined.

(** The instance: the two tables and the attributes the methods set. *)
Record DataModel : Type := Model {
  vdf               : list vrow;
  edf               : list erow;
  estat_collapsed   : option (list erow);
  verifit_collapsed : option (list vrow);
  estat_diffs       : option (gmap string (list dev));
  endstudy_diffs    : option (gmap string (list dev));
  best_target_diffs : option (gmap string (list dev))
}.

Definition new_model (v : list vrow) (e : list erow) : DataModel :=
  Model v e None None None None None.

Definition set_form_factor (f : string) (r : vrow) : vrow :=
  VRow (subject r) (condition r) f (freq r) (left65 r) (right65 r).
Definition eset_form_factor (f : string) (t : erow) : erow :=
  ERow (esubject t) f (efreq t) (left t) (right t).

(** *** [_assign_form_factors] *)

Definition pair_leb (a b : string * string) : bool :=
  match String.compare a.1 b.1 with
  | Lt => true
  | Gt => false
  | Eq => String.leb a.2 b.2
  end.

Definition pair_le (a b : string * string) : Prop := Is_true (pair_leb a b).

#[global] Instance pair_le_dec : RelDecision pair_le.
Proof. intros a b. unfold pair_le. apply _. Defined.

(** [edf.groupby(['subject', 'form_factor']).size().reset_index()]: one
    row per distinct pair, sorted by the pair, with the group's size. *)
Definition groupby_size (e : list erow) : list (string * string * nat) :=
  let pairs := map (fun t => (esubject t, eform_factor t)) e in
  map (fun p => (p.1, p.2, length (List.filter (fun q => bool_decide (q = p)) pairs)))
    (merge_sort pair_le (unique pairs)).

(** [dict(zip(keys, values))]: a later pair replaces an earlier one with
    the same key. *)
Definition dict_zip (ks vs : list string) : gmap string string :=
  fold_left (fun d kv => <[kv.1 := kv.2]> d) (combine ks vs) ∅.

Definition form_factor_dict (e : list erow) : gmap string string :=
  let temp := groupby_size e in
  dict_zip (map (fun x => x.1.1) temp) (map (fun x => x.1.2) temp).

(** The loop [for ii in range(0, self.vdf.shape[0])]; the table is
    updated row by row, and stays as far as it got when the look-up
    raises. *)
Fixpoint assign_rows (temp : gmap string string) (iis : list nat)
    (v : list vrow) : list vrow * result unit :=
  match iis with
  | [] => (v, Ok tt)
  | ii :: rest =>
      match v !! ii with
      | None => (v, Raise IndexError)
      | Some r =>
          match dict_getitem temp (subject r) with
          | Raise e => (v, Raise e)
          | Ok f => assign_rows temp rest (<[ii := set_form_factor f r]> v)
          end
      end
  end.

(** What one turn of the loop writes in row [r]. *)
Definition assigned (temp : gmap string string) (r : vrow) : vrow :=
  set_form_factor (default "" (temp !! subject r)) r.

Definition set_vdf (v : list vrow) (self : DataModel) : DataModel :=
  Model v (edf self) (estat_collapsed self) (verifit_collapsed self)
    (estat_diffs self) (endstudy_diffs self) (best_target_diffs self).

Definition _assign_form_factors (self : DataModel)
  : DataModel * result unit :=
  let temp := form_factor_dict (edf self) in
  let out := assign_rows temp (seq 0 (length (vdf self))) (vdf self) in
  (set_vdf out.1 self, out.2).

(** *** [collapse_form_factors] *)

Definition RICS : list string := ["RIC_RT"; "RIC312"; "MRIC"].
Definition CUSTOMS : list string := ["ITC"; "ITE"; "CIC"].

Definition collapse_verifit (v : list vrow) : list vrow :=
  let verifit_RICs := List.filter (fun r => contains RICS (form_factor r)) v in
  let verifit_wireless_customs :=
    List.filter (fun r => contains CUSTOMS (form_factor r)) v in
  map (set_form_factor "allRIC") verifit_RICs
  ++ map (set_form_factor "WirelessCustoms") verifit_wireless_customs.

Definition collapse_estat (e : list erow) : list erow :=
  let estat_RICs := List.filter (fun t => contains RICS (eform_factor t)) e in
  let estat_wireless_customs :=
    List.filter (fun t => contains CUSTOMS (eform_factor t)) e in
  map (eset_form_factor "allRIC") estat_RICs
  ++ map (eset_form_factor "WirelessCustoms") estat_wireless_customs.

Definition collapse_form_factors (self : DataModel) : DataModel :=
  Model (vdf self) (edf self)
    (Some (collapse_estat (edf self)))
    (Some (collapse_verifit (vdf self)))
    (estat_diffs self) (endstudy_diffs self) (best_target_diffs self).

(** *** The difference methods *)

(** [rows[c_left] = <left difference>; rows[c_right] = <right difference>]
    where the other operand is a table with index [0, 1, ...] too: pandas
    pairs the two by index label, that is by position, and a row of
    [rows] past the end of [others] gets NaN. *)
Fixpoint assign_diffs {B} (d : vrow -> B -> Z * Z)
    (rows : list vrow) (others : list B) : list dev :=
  match rows with
  | [] => []
  | m :: rows' =>
      match others with
      | [] => Dev m None None :: assign_diffs d rows' []
      | t :: others' =>
          Dev m (Some (d m t).1) (Some (d m t).2)
          :: assign_diffs d rows' others'
      end
  end.

Definition dict_key (cond form : string) : string :=
  (cond ++ "_" ++ form)%string.

(** The entries a pair of nested loops stores, in order. *)
Definition entries {V} (conds forms : list string)
    (g : string -> string -> V) : list (string * V) :=
  flat_map (fun c => map (fun f => (dict_key c f, g c f)) forms) conds.

(** The two selections of one turn of the loops of [_diff_from_estat]. *)
Definition select_v (verifit_data : list vrow) (cond form : string)
  : list vrow :=
  List.filter (fun r => String.eqb (condition r) cond
                        && String.eqb (form_factor r) form) verifit_data.

Definition select_e (estat_data : list erow) (form : string)
    (v : list vrow) : list erow :=
  List.filter (fun t => String.eqb (eform_factor t) form
                        && contains (unique (map subject v)) (esubject t))
    estat_data.

(** The arithmetic of [a - b] on two level columns, read from the CSV
    files as int64.

    Both operands carry the index [0, 1, ...] of [reset_index]. When the
    two tables have the same number of rows the indexes are equal, the
    int64 arrays are subtracted as they are, and a difference outside
    [-2^63, 2^63) wraps around. Otherwise pandas first aligns the two
    Series on the union of the indexes; the shorter one gets NaN and
    becomes float64, and the subtraction is done in float64: each
    operand is rounded to the nearest float64, and so is the
    difference. *)
Definition same_index {A B} (rows : list A) (others : list B) : bool :=
  Nat.eqb (length rows) (length others).

Definition int64_wrap (z : Z) : Z :=
  ((z + 2 ^ 63) mod 2 ^ 64 - 2 ^ 63)%Z.

(** The float64 nearest to an integer, ties to even: 53 significant
    bits are kept. The result is an integer again. *)
Definition float64_round (z : Z) : Z :=
  let a := Z.abs z in
  let k := (Z.log2 a - 52)%Z in
  if (k <=? 0)%Z then z
  else
    let q := Z.shiftr a k in
    let r := Z.land a (Z.ones k) in
    let half := Z.shiftl 1 (k - 1) in
    let q' := if (half <? r)%Z || ((r =? half)%Z && Z.odd q)
              then (q + 1)%Z else q in
    (Z.sgn z * Z.shiftl q' k)%Z.

Definition series_sub (same : bool) (a b : Z) : Z :=
  if same then int64_wrap (a - b)
  else float64_round (float64_round a - float64_round b).

(** [v['left65'] - e['left']] and [v['right65'] - e['right']] at one
    position. *)
Definition estat_diff (same : bool) (m : vrow) (t : erow) : Z * Z :=
  (series_sub same (left65 m) (left t),
   series_sub same (right65 m) (right t)).

Definition diff_from_estat (verifit_data : list vrow) (estat_data : list erow)
  : gmap string (list dev) :=
  fold_left (fun d cond =>
    fold_left (fun d form =>
      let v := select_v verifit_data cond form in
      let e := select_e estat_data form v in
      <[dict_key cond form := assign_diffs (estat_diff (same_index v e)) v e]> d)
      (unique (map form_factor verifit_data)) d)
    (unique (map condition verifit_data)) ∅.

Definition _diff_from_estat (self : DataModel) (verifit_data : list vrow)
    (estat_data : list erow) : DataModel :=
  Model (vdf self) (edf self) (estat_collapsed self) (verifit_collapsed self)
    (Some (diff_from_estat verifit_data estat_data))
    (endstudy_diffs self) (best_target_diffs self).

(** [other['left65'] - target_match['left65']], per ear. *)
Definition between_diff (same : bool) (tm other : vrow) : Z * Z :=
  (series_sub same (left65 other) (left65 tm),
   series_sub same (right65 other) (right65 tm)).

(** The masks of [_diff_from_endstudy] mix [verifit_data['condition']]
    with [all_conds['form_factor']]; pandas aligns the two by index
    label, so on the rows of [all_conds] the mask is the conjunction of
    the two tests on the row itself. *)
Definition diff_from_endstudy (verifit_data : list vrow)
  : gmap string (list dev) :=
  let subs :=
    unique (map subject
              (List.filter (fun r => String.eqb (condition r) "EndStudy")
                 verifit_data)) in
  let all_conds := List.filter (fun r => contains subs (subject r)) verifit_data in
  fold_left (fun d cond =>
    if String.eqb cond "TargetMatch" then
      fold_left (fun d form =>
        let endstudy := select_v all_conds "EndStudy" form in
        let target_match := select_v all_conds cond form in
        <[dict_key cond form :=
            assign_diffs (between_diff (same_index target_match endstudy))
              target_match endstudy]> d)
        (unique (map form_factor verifit_data)) d
    else d)
    (unique (map condition verifit_data)) ∅.

Definition _diff_from_endstudy (self : DataModel) (verifit_data : list vrow)
  : DataModel :=
  Model (vdf self) (edf self) (estat_collapsed self) (verifit_collapsed self)
    (estat_diffs self) (Some (diff_from_endstudy verifit_data))
    (best_target_diffs self).

Definition diff_between_bestfit_targetmatch (verifit_data : list vrow)
  : gmap string (list dev) :=
  let vdata := verifit_data in
  fold_left (fun d cond =>
    if String.eqb cond "TargetMatch" then
      fold_left (fun d form =>
        let bestfit := select_v vdata "BestFit" form in
        let target_match := select_v vdata cond form in
        <[dict_key cond form :=
            assign_diffs (between_diff (same_index target_match bestfit))
              target_match bestfit]> d)
        (unique (map form_factor vdata)) d
    else d)
    (unique (map condition vdata)) ∅.

Definition _diff_between_bestfit_targetmatch (self : DataModel)
    (verifit_data : list vrow) : DataModel :=
  Model (vdf self) (edf self) (estat_collapsed self) (verifit_collapsed self)
    (estat_diffs self) (endstudy_diffs self)
    (Some (diff_between_bestfit_targetmatch verifit_data)).

(** The rows stored under a key; no rows when the key is absent. *)
Definition group (d : gmap string (list dev)) (k : string) : list dev :=
  default [] (d !! k).

(** *** Vocabulary of the properties *)

(** A condition label as [_organize_verifit_data] produces it: one of
    the two pieces of [filename.split('_')]. *)
Fixpoint no_underscore (s : string) : bool :=
  match s with
  | EmptyString => true
  | String c s' => negb (Ascii.eqb c "_") && no_underscore s'
  end.

(** The bucket [collapse_form_factors] puts a form factor in, if any. *)
Definition bucket (f : string) : option string :=
  if contains RICS f then Some "allRIC"
  else if contains CUSTOMS f then Some "WirelessCustoms"
  else None.

Definition relabel_v (r : vrow) : option vrow :=
  match bucket (form_factor r) with
  | Some b => Some (set_form_factor b r)
  | None => None
  end.

Definition relabel_e (t : erow) : option erow :=
  match bucket (eform_factor t) with
  | Some b => Some (eset_form_factor b t)
  | None => None
  end.

Definition relabel_dev (b : string) (d : dev) : dev :=
  Dev (set_form_factor b (measured d)) (left_diff d) (right_diff d).

(** A measured row and the target row of the same subject, form factor
    and frequency. *)
Definition paired (m : vrow) (t : erow) : Prop :=
  subject m = esubject t /\ form_factor m = eform_factor t
  /\ freq m = efreq t.

(** The two differences of [d] are those against a target row of its
    own subject, form factor and frequency. *)
Definition key_matched (estat_data : list erow) (d : dev) : Prop :=
  exists t, In t estat_data /\ paired (measured d) t
    /\ left_diff d = Some (left65 (measured d) - left t)%Z
    /\ right_diff d = Some (right65 (measured d) - right t)%Z.

(** An int64 value. *)
Definition in_int64 (z : Z) : Prop := (- 2 ^ 63 <= z < 2 ^ 63)%Z.

(** The two differences of a measured and a target row are int64
    values: the subtraction of the columns does not wrap around. *)
Definition exact_diffs (m : vrow) (t : erow) : Prop :=
  in_int64 (left65 m - left t) /\ in_int64 (right65 m - right t).

(** [g] holds the rows of [v] in order; its i-th row carries the
    differences of the i-th row of [v] and the i-th row of [e], in the
    arithmetic of the columns, and NaN when [e] has no i-th row. *)
Definition by_position (v : list vrow) (e : list erow) (g : list dev)
  : Prop :=
  length g = length v
  /\ forall i m, v !! i = Some m ->
       exists d, g !! i = Some d /\ measured d = m
         /\ match e !! i with
            | Some t =>
                left_diff d
                = Some (series_sub (same_index v e) (left65 m) (left t))
                /\ right_diff d
                   = Some (series_sub (same_index v e) (right65 m) (right t))
            | None => left_diff d = None /\ right_diff d = None
            end.

(** C2 as it is worded: every pair that occurs has its group, made of
    the pair's measured rows, each with the differences against its own
    target. *)
Definition diffs_against_own_target (verifit_data : list vrow)
    (estat_data : list erow) : Prop :=
  forall cond form,
    In (cond, form) (map (fun r => (condition r, form_factor r)) verifit_data) ->
    exists g,
      diff_from_estat verifit_data estat_data !! dict_key cond form = Some g
      /\ map measured g = select_v verifit_data cond form
      /\ Forall (key_matched estat_data) g.

(** C6 as it is worded, for one condition. *)
Definition collapse_preserves_groups (verifit_data : list vrow)
    (estat_data : list erow) (cond : string) : Prop :=
  let d := diff_from_estat verifit_data estat_data in
  Permutation
    (group (diff_from_estat (collapse_verifit verifit_data)
              (collapse_estat estat_data))
       (dict_key cond "allRIC"))
    (map (relabel_dev "allRIC")
       (group d (dict_key cond "RIC_RT") ++ group d (dict_key cond "RIC312")
        ++ group d (dict_key cond "MRIC"))).

(** The RIC rows of one condition, and the RIC targets of their
    subjects: the two selections of the collapsed run. *)
Definition ric_measured (verifit_data : list vrow) (cond : string)
  : list vrow :=
  List.filter (fun r => String.eqb (condition r) cond
                        && contains RICS (form_factor r)) verifit_data.

Definition ric_targets (estat_data : list erow) (v : list vrow)
  : list erow :=
  List.filter (fun t => contains RICS (eform_factor t)
                        && contains (unique (map subject v)) (esubject t))
    estat_data.

(** A measured row facing a target row of its own subject and form
    factor. *)
Definition same_owner (m : vrow) (t : erow) : Prop :=
  subject m = esubject t /\ form_factor m = eform_factor t.

(** *** Sample tables *)

(** The scenario of the specification. *)
Definition scenario_v : list vrow :=
  [VRow "S1" "TargetMatch" "RIC_RT" 1000 50 52].
Definition scenario_e : list erow := [ERow "S1" "RIC_RT" 1000 45 50].

(** Two subjects with one form factor, listed in opposite orders. *)
Definition swapped_v : list vrow :=
  [ VRow "S2" "TargetMatch" "RIC_RT" 1000 60 61;
    VRow "S1" "TargetMatch" "RIC_RT" 1000 50 52 ].
Definition swapped_e : list erow :=
  [ ERow "S1" "RIC_RT" 1000 45 50; ERow "S2" "RIC_RT" 1000 40 41 ].

(** Two subjects with two RIC form factors; each form factor alone lines
    up, the two tables list the subjects in opposite orders. *)
Definition crossed_v : list vrow :=
  [ VRow "S1" "TargetMatch" "RIC_RT" 1000 50 52;
    VRow "S2" "TargetMatch" "MRIC" 1000 60 61 ].
Definition crossed_e : list erow :=
  [ ERow "S2" "MRIC" 1000 40 41; ERow "S1" "RIC_RT" 1000 45 50 ].

(** The targets of [crossed_v] in the order of the measurements. *)
Definition uncrossed_e : list erow :=
  [ ERow "S1" "RIC_RT" 1000 45 50; ERow "S2" "MRIC" 1000 40 41 ].

(** Two pairs (condition, form factor) whose labels join to the same
    string [A_B_C]. *)
Definition shared_key_v : list vrow :=
  [ VRow "S1" "A" "B_C" 1000 50 52;
    VRow "S2" "A_B" "C" 1000 60 61 ].

(** A measured level and a target whose difference is 2^63. *)
Definition wrapping_v : list vrow :=
  [ VRow "S1" "TargetMatch" "RIC_RT" 1000 9223372036854775807 52 ].
Definition wrapping_e : list erow := [ ERow "S1" "RIC_RT" 1000 (-1) 50 ].

(** Two measured rows and one target row; the first level, 2^53 + 1,
    is no float64. *)
Definition uneven_v : list vrow :=
  [ VRow "S1" "TargetMatch" "RIC_RT" 1000 9007199254740993 52;
    VRow "S1" "TargetMatch" "RIC_RT" 2000 50 52 ].
Definition uneven_e : list erow := [ ERow "S1" "RIC_RT" 1000 0 50 ].

(** Subject S1 has a TargetMatch measurement only; S2 has BestFit,
    TargetMatch and EndStudy. *)
Definition lone_target_match : list vrow :=
  [ VRow "S1" "TargetMatch" "RIC_RT" 1000 50 52;
    VRow "S2" "BestFit" "RIC_RT" 1000 63 66;
    VRow "S2" "TargetMatch" "RIC_RT" 1000 60 61;
    VRow "S2" "EndStudy" "RIC_RT" 1000 64 67 ].

(** A measured table with a subject the target table does not have. *)
Definition unknown_subject_v : list vrow :=
  [ VRow "S1" "TargetMatch" "" 1000 50 52;
    VRow "S3" "TargetMatch" "" 1000 60 61 ].

(** *** Vocabulary of the further properties *)

Definition both_diffs (d : dev) : Prop :=
  is_Some (left_diff d) /\ is_Some (right_diff d).
Definition no_diffs (d : dev) : Prop :=
  left_diff d = None /\ right_diff d = None.


(** A target table that lists two form factors for one subject. *)
Definition two_forms_e : list erow :=
  [ ERow "S1" "RIC_RT" 1000 45 50; ERow "S1" "MRIC" 1000 40 41 ].

(** *** [_organize_verifit_data] and [_organize_estat_data] *)

(** [Series.str.split(sep, expand=True)]: a frame with one column per
    token position, as many as the longest split has tokens; a row with
    fewer tokens has [None] in the columns it does not reach. *)
Definition expand_width (splits : list (list string)) : nat :=
  list_max (map (@List.length string) splits).

Definition pad_tokens (w : nat) (ts : list string) : list (option string) :=
  map Some ts ++ repeat None (w - List.length ts).

Definition str_split_expand (sep : ascii) (names : list string)
  : nat * list (list (option string)) :=
  let splits := map (split sep) names in
  (expand_width splits, map (pad_tokens (expand_width splits)) splits).

(** [df[[c1, c2]] = value] with a frame on the right: pandas wants as
    many columns as keys, and raises [ValueError] otherwise. The result
    is the pair of cells each row gets. *)
Definition two_columns (value : nat * list (list (option string)))
  : result (list (option string * option string)) :=
  if Nat.eqb value.1 2
  then Ok (map (fun cells => (mjoin (nth_error cells 0),
                              mjoin (nth_error cells 1))) value.2)
  else Raise ValueError.

(** A row of the table [VerifitModel] hands over, as far as the method
    reads it. *)
Record vfile : Type := VFile {
  filename : string;
  vfreq    : Z;
  vleft65  : Z;
  vright65 : Z
}.

(** A row after [_organize_verifit_data]: a cell of a split column can
    be missing. *)
Record vorg : Type := VOrg {
  o_subject     : option string;
  o_condition   : option string;
  o_form_factor : string;
  o_freq        : Z;
  o_left65      : Z;
  o_right65     : Z
}.

Definition _organize_verifit_data (raw : list vfile) : result (list vorg) :=
  match two_columns (str_split_expand "_" (map filename raw)) with
  | Raise e => Raise e
  | Ok cols =>
      Ok (map (fun x : vfile * (option string * option string) =>
                 VOrg x.2.1 x.2.2 "" (vfreq x.1) (vleft65 x.1) (vright65 x.1))
            (combine raw cols))
  end.

(** A row of the table [EstatModel] hands over (its [data] column is
    dropped unread), and a row after [_organize_estat_data]. *)
Record efile : Type := EFile {
  efilename     : string;
  f_form_factor : string;
  f_freq        : Z;
  f_left        : Z;
  f_right       : Z
}.

Record eorg : Type := EOrg {
  g_subject     : option string;
  g_form_factor : string;
  g_freq        : Z;
  g_left        : Z;
  g_right       : Z
}.

Definition _organize_estat_data (raw : list efile) : result (list eorg) :=
  match two_columns (str_split_expand "_" (map efilename raw)) with
  | Raise e => Raise e
  | Ok cols =>
      Ok (map (fun x : efile * (option string * option string) =>
                 EOrg x.2.1 (f_form_factor x.1) (f_freq x.1) (f_left x.1)
                   (f_right x.1))
            (combine raw cols))
  end.

(** How a file name and the two cells made of it relate: the name is
    the subject alone, or subject, underscore and second token, and
    neither piece contains an underscore. *)
Definition name_cells (name : string) (s c : option string) : Prop :=
  (exists a, name = a /\ s = Some a /\ c = None
             /\ no_underscore a = true)
  \/ (exists a b, name = (a ++ "_" ++ b)%string /\ s = Some a /\ c = Some b
                  /\ no_underscore a = true /\ no_underscore b = true).

(** *** The counts of [analyze] *)

(** [np.abs(x) <= ceiling], false on NaN. *)
Definition within (ceiling : Z) (x : option Z) : bool :=
  match x with
  | Some z => (Z.abs z <=? ceiling)%Z
  | None => false
  end.

Definition at_freq (temp : list dev) (cps : Z) : list dev :=
  List.filter (fun d => (freq (measured d) =? cps)%Z) temp.

(** [bools], row by row, for one frequency. *)
Definition criterion_bools (temp : list dev) (cps ceiling : Z) : list bool :=
  flat_map (fun d => [within ceiling (left_diff d);
                      within ceiling (right_diff d)])
    (at_freq temp cps).

(** [t = bools.values.sum()] and [f = (~bools).values.sum()]. *)
Definition ears_meeting (temp : list dev) (cps ceiling : Z) : nat :=
  List.length (List.filter (fun b => b) (criterion_bools temp cps ceiling)).
Definition ears_failing (temp : list dev) (cps ceiling : Z) : nat :=
  List.length (List.filter negb (criterion_bools temp cps ceiling)).

(** The cells of the two difference columns that are NaN. *)
Definition nan_cells (temp : list dev) : nat :=
  List.length
    (List.filter (fun x : option Z => match x with None => true | _ => false end)
       (flat_map (fun d => [left_diff d; right_diff d]) temp)).

(** File names with one, two and three tokens. *)
Definition two_token_files : list vfile :=
  [ VFile "S1_TargetMatch" 1000 50 52; VFile "S2_BestFit" 1000 63 66 ].
Definition three_token_files : list vfile :=
  [ VFile "S1_Target_Match" 1000 50 52 ].

End Rem.

(** ** SIN: [src/sin/models/sin.py] *)

Module Sin.

(** [p in s] on strings: [p] occurs somewhere in [s]. *)
Fixpoint occurs_in (p s : string) : bool :=
  String.prefix p s
  || match s with
     | EmptyString => false
     | String _ s' => occurs_in p s'
     end.

(** [' '.join(col.split('_')[:-1])]. *)
Definition reformat (col : string) : string :=
  String.concat " " (removelast (split "_" col)).

(** A DataFrame as its columns in order: label and cells. *)
Definition frame (V : Type) : Type := list (string * list V).

(** [data[names]]: for each label of the list, in order, every column
    of [data] that has that label. *)
Definition getitem_columns {V} (data : frame V) (names : list string)
  : frame V :=
  flat_map (fun n => List.filter (fun c => String.eqb c.1 n) data) names.

(** [df.columns = names]: as many labels as columns, or [ValueError]. *)
Definition set_columns {V} (df : frame V) (names : list string)
  : result (frame V) :=
  if Nat.eqb (List.length names) (List.length df)
  then Ok (combine names (map snd df))
  else Raise ValueError.

Definition organize_data {V} (data : frame V)
  : result (frame V * frame V) :=
  let cols := map fst data in
  let word_col_names := List.filter (occurs_in "Words") cols in
  let sentence_col_names := List.filter (occurs_in "Sentences") cols in
  let word_data := getitem_columns data word_col_names in
  let sentence_data := getitem_columns data sentence_col_names in
  let new_word_col_names := map reformat word_col_names in
  let new_sentence_col_names := map reformat sentence_col_names in
  match set_columns word_data new_word_col_names with
  | Raise e => Raise e
  | Ok word_data =>
      match set_columns sentence_data new_sentence_col_names with
      | Raise e => Raise e
      | Ok sentence_data => Ok (word_data, sentence_data)
      end
  end.

(** [s] with every underscore turned into a space. *)
Fixpoint spaced (s : string) : string :=
  match s with
  | EmptyString => EmptyString
  | String c s' => String (if Ascii.eqb c "_" then " "%char else c) (spaced s')
  end.

(** [s] has no character [c]. *)
Fixpoint lacks (c : ascii) (s : string) : bool :=
  match s with
  | EmptyString => true
  | String c' s' => negb (Ascii.eqb c' c) && lacks c s'
  end.

(** The part of [data] with the columns whose label contains [word],
    relabelled. *)
Definition relabelled {V} (word : string) (data : frame V) : frame V :=
  map (fun c => (reformat c.1, c.2))
    (List.filter (fun c => occurs_in word c.1) data).

(** A small table of scores. *)
Definition sample_scores : frame Z :=
  [ ("Subject", [1; 2]%Z);
    ("Cond_A_Words_PC", [80; 90]%Z);
    ("Cond_A_Sentences_PC", [70; 60]%Z);
    ("Cond_B_Words_PC", [85; 95]%Z) ].

End Sin.

(** * Properties *)

(** ** Facts about the primitives *)

Module PyFacts.

Section Unique.
Context `{EqDecision A}.

Lemma in_filter_neq (x y : A) (l : list A) :
  In y (List.filter (fun z => negb (bool_decide (z = x))) l) <->
  In y l /\ y <> x.
Proof.
  rewrite filter_In. split; intros [Hin Hne]; split; auto.
  - intros ->. rewrite bool_decide_eq_true_2 in Hne by reflexivity.
    discriminate.
  - rewrite bool_decide_eq_false_2 by assumption. reflexivity.
Qed.

Lemma in_unique (x : A) (l : list A) : In x (unique l) <-> In x l.
Proof.
  induction l as [|a l IH]; simpl; [tauto|].
  rewrite in_filter_neq, IH.
  destruct (decide (x = a)) as [->|Hne]; intuition congruence.
Qed.

Lemma NoDup_unique (l : list A) : List.NoDup (unique l).
Proof.
  induction l as [|a l IH]; simpl; constructor.
  - rewrite in_filter_neq. intros [_ Hne]. now apply Hne.
  - now apply List.NoDup_filter.
Qed.

End Unique.

Lemma contains_In (l : list string) (x : string) :
  contains l x = true <-> In x l.
Proof.
  unfold contains. rewrite existsb_exists. split.
  - intros (y & Hy & Heq). apply String.eqb_eq in Heq. now subst.
  - intros Hin. exists x. split; [assumption|apply String.eqb_refl].
Qed.

Lemma split_nonempty (sep : ascii) (s : string) : split sep s <> [].
Proof.
  destruct s as [|c s]; simpl; [discriminate|].
  destruct (Ascii.eqb c sep); [discriminate|].
  destruct (split sep s); discriminate.
Qed.

Section SeriesApply.
Context {A B : Type} (f : A -> result B).

(** A Series is produced when [f] returns on every cell. *)
Lemma series_apply_ok (g : A -> B) (s : list A) :
  Forall (fun x => f x = Ok (g x)) s -> series_apply f s = Ok (map g s).
Proof.
  induction 1 as [|x s Hx _ IH]; simpl; [reflexivity|].
  now rewrite Hx, IH.
Qed.

(** One raising cell is enough for the whole call to raise. *)
Lemma series_apply_raise (e : exn) (s : list A) :
  (forall x e', f x = Raise e' -> e' = e) ->
  Exists (fun x => is_ok (f x) = false) s ->
  series_apply f s = Raise e.
Proof.
  intros Honly. induction s as [|x s IH]; intros Hex.
  - inversion Hex.
  - simpl. destruct (f x) as [y|e'] eqn:Hfx.
    + rewrite IH; [reflexivity|].
      inversion Hex as [? ? Hbad|]; subst; [|assumption].
      rewrite Hfx in Hbad. discriminate.
    + now rewrite (Honly _ _ Hfx).
Qed.

End SeriesApply.

(** *** Lists *)

Section ListFacts.
Context {A : Type}.

Lemma filter_id (f : A -> bool) (l : list A) :
  (forall x, In x l -> f x = true) -> List.filter f l = l.
Proof.
  induction l as [|a l IH]; intros H; simpl; [reflexivity|].
  rewrite (H a (or_introl eq_refl)), IH; [reflexivity|].
  intros x Hx. apply H. now right.
Qed.

Lemma filter_none (f : A -> bool) (l : list A) :
  (forall x, In x l -> f x = false) -> List.filter f l = [].
Proof.
  induction l as [|a l IH]; intros H; simpl; [reflexivity|].
  rewrite (H a (or_introl eq_refl)). apply IH.
  intros x Hx. apply H. now right.
Qed.

Lemma filter_twice (f g : A -> bool) (l : list A) :
  List.filter f (List.filter g l) = List.filter (fun x => g x && f x) l.
Proof.
  induction l as [|a l IH]; simpl; [reflexivity|].
  destruct (g a); simpl; [destruct (f a)|]; now rewrite IH.
Qed.

Lemma filter_perm (f : A -> bool) (l l' : list A) :
  Permutation l l' -> Permutation (List.filter f l) (List.filter f l').
Proof.
  induction 1 as [|x l l' _ IH|x y l|l l' l'' _ IH1 _ IH2]; simpl.
  - constructor.
  - destruct (f x); [now constructor|assumption].
  - destruct (f x), (f y); try reflexivity. apply perm_swap.
  - now transitivity (List.filter f l').
Qed.

Lemma filter_split_perm (f : A -> bool) (l : list A) :
  Permutation (List.filter f l ++ List.filter (fun x => negb (f x)) l) l.
Proof.
  induction l as [|a l IH]; simpl; [constructor|].
  destruct (f a); simpl.
  - now constructor.
  - symmetry. apply Permutation_cons_app. now symmetry.
Qed.

Lemma fold_left_ext {B} (f g : B -> A -> B) (l : list A) (b : B) :
  (forall b x, f b x = g b x) -> fold_left f l b = fold_left g l b.
Proof.
  intros H. revert b. induction l as [|a l IH]; intros b; simpl;
    [reflexivity|]. now rewrite H, IH.
Qed.

Lemma fold_left_map {B C} (f : B -> C -> B) (g : A -> C) (l : list A) (b : B) :
  fold_left f (map g l) b = fold_left (fun b x => f b (g x)) l b.
Proof.
  revert b. induction l as [|a l IH]; intros b; simpl; [reflexivity|].
  apply IH.
Qed.

Lemma fold_left_flat_map {B C} (f : B -> C -> B) (g : A -> list C)
    (l : list A) (b : B) :
  fold_left f (flat_map g l) b
  = fold_left (fun b x => fold_left f (g x) b) l b.
Proof.
  revert b. induction l as [|a l IH]; intros b; simpl; [reflexivity|].
  now rewrite fold_left_app, IH.
Qed.

Lemma fold_left_if {B} (p : A -> bool) (h : B -> A -> B) (l : list A)
    (b : B) :
  fold_left (fun b x => if p x then h b x else b) l b
  = fold_left h (List.filter p l) b.
Proof.
  revert b. induction l as [|a l IH]; intros b; simpl; [reflexivity|].
  destruct (p a); simpl; apply IH.
Qed.

Lemma filter_map_swap {B} (p : B -> bool) (f : A -> B) (l : list A) :
  List.filter p (map f l) = map f (List.filter (fun x => p (f x)) l).
Proof.
  induction l as [|a l IH]; simpl; [reflexivity|].
  destruct (p (f a)); simpl; now rewrite IH.
Qed.

Lemma filter_three_perm (p1 p2 p3 : A -> bool) (l : list A) :
  (forall x, In x l ->
     (p1 x, p2 x, p3 x) = (true, false, false)
     \/ (p1 x, p2 x, p3 x) = (false, true, false)
     \/ (p1 x, p2 x, p3 x) = (false, false, true)) ->
  Permutation l (List.filter p1 l ++ List.filter p2 l ++ List.filter p3 l).
Proof.
  induction l as [|a l IH]; intros H; [constructor|].
  assert (IH' := IH (fun x Hx => H x (or_intror Hx))).
  cbn [List.filter].
  destruct (H a (or_introl eq_refl)) as [E|[E|E]];
    injection E as E1 E2 E3; rewrite E1, E2, E3.
  - simpl. now constructor.
  - apply Permutation_cons_app. exact IH'.
  - rewrite app_assoc. apply Permutation_cons_app.
    rewrite <- app_assoc. exact IH'.
Qed.

Lemma Forall2_in_r {B} (P : A -> B -> Prop) (l : list A) (l' : list B)
    (y : B) :
  Forall2 P l l' -> In y l' -> exists x, In x l /\ P x y.
Proof.
  induction 1 as [|x y' l l' Hxy _ IH]; intros Hin; [destruct Hin|].
  destruct Hin as [->|Hin].
  - exists x. split; [now left|exact Hxy].
  - destruct (IH Hin) as (x' & Hx' & HP). exists x'. split; [now right|].
    exact HP.
Qed.

End ListFacts.

(** A dict filled by successive [d[k] = v]. *)
Section FoldInsert.
Context {V : Type}.

Lemma store_all_lookup_Some (l : list (string * V)) (d : gmap string V)
    (k : string) (v : V) :
  store_all l d !! k = Some v -> In (k, v) l \/ d !! k = Some v.
Proof.
  unfold store_all. revert d.
  induction l as [|[k' v'] l IH]; intros d H; simpl in *; [now right|].
  apply IH in H as [H|H]; [left; now right|].
  destruct (decide (k' = k)) as [->|Hne].
  - rewrite lookup_insert_eq in H. inversion H; subst. left. now left.
  - rewrite lookup_insert_ne in H by assumption. now right.
Qed.

Lemma store_all_lookup_absent (l : list (string * V)) (d : gmap string V)
    (k : string) :
  ~ In k (map fst l) -> store_all l d !! k = d !! k.
Proof.
  unfold store_all. revert d.
  induction l as [|[k' v'] l IH]; intros d H; simpl in *; [reflexivity|].
  rewrite IH by tauto. apply lookup_insert_ne. tauto.
Qed.

Lemma store_all_lookup_in (l : list (string * V)) (d : gmap string V)
    (k : string) (v : V) :
  In (k, v) l -> (forall v', In (k, v') l -> v' = v) ->
  store_all l d !! k = Some v.
Proof.
  unfold store_all. revert d.
  induction l as [|[k' v'] l IH]; intros d Hin Huniq; simpl in *;
    [contradiction|].
  destruct (in_dec string_dec k (map fst l)) as [Hl|Hl].
  - apply in_map_iff in Hl as ([k0 w] & Hk & Hw). simpl in Hk. subst k0.
    assert (w = v) by (apply Huniq; now right). subst w.
    apply IH; [exact Hw|]. intros v'' Hv''. apply Huniq. now right.
  - fold (store_all l (<[k':=v']> d)).
    rewrite store_all_lookup_absent by exact Hl.
    destruct Hin as [Heq|Hin].
    + inversion Heq; subst. apply lookup_insert_eq.
    + exfalso. apply Hl. apply in_map_iff. now exists (k, v).
Qed.

Lemma store_all_is_Some (l : list (string * V)) (d : gmap string V)
    (k : string) :
  In k (map fst l) -> is_Some (store_all l d !! k).
Proof.
  unfold store_all. revert d.
  induction l as [|[k' v'] l IH]; intros d Hin; simpl in *; [contradiction|].
  destruct (in_dec string_dec k (map fst l)) as [Hl|Hl]; [now apply IH|].
  fold (store_all l (<[k':=v']> d)).
  rewrite store_all_lookup_absent by exact Hl.
  destruct Hin as [->|Hin]; [|contradiction].
  rewrite lookup_insert_eq. eauto.
Qed.

End FoldInsert.

End PyFacts.

(** ** DAM *)

Module DamFacts.
Import Dam PyFacts.

(** C8. Canonicalization is idempotent on the domain of the table: the
    value [COMPARISONS] gives for a key is itself a key, and it is mapped
    to itself, so a second look-up changes nothing. *)
Theorem canonicalization_idempotent (x y : string) :
  COMPARISONS !! x = Some y -> COMPARISONS !! y = Some y.
Proof.
  unfold COMPARISONS. intros H.
  apply elem_of_list_to_map_2 in H.
  repeat (apply elem_of_cons in H as [H|H];
          [inversion H; subst; vm_compute; reflexivity|]).
  inversion H.
Qed.

Lemma canonicalization_idempotent_witness :
  COMPARISONS !! "DAM_4-DAM_3" = Some "DAM_3-DAM_4"
  /\ COMPARISONS !! "DAM_3-DAM_4" = Some "DAM_3-DAM_4".
Proof.
  split.
  - vm_compute. reflexivity.
  - apply (canonicalization_idempotent "DAM_4-DAM_3").
    vm_compute. reflexivity.
Defined.

(** *** One call of [organize_data] *)

Lemma getitem4_ok (r : raw_row) :
  well_named r = true -> getitem (tokens r) 4 = Ok (snr_of r).
Proof.
  unfold well_named, getitem, snr_of. intros H. apply Nat.leb_le in H.
  destruct (nth_error (tokens r) 4) as [x|] eqn:E.
  - now rewrite (nth_error_nth _ _ _ E).
  - apply nth_error_None in E. lia.
Qed.

Lemma getitem4_raise (r : raw_row) :
  well_named r = false -> getitem (tokens r) 4 = Raise IndexError.
Proof.
  unfold well_named, getitem. intros H. apply Nat.leb_gt in H.
  destruct (nth_error (tokens r) 4) as [x|] eqn:E; [|reflexivity].
  assert (4 < length (tokens r)); [|lia].
  apply nth_error_Some. congruence.
Qed.

Lemma getitem0_ok (r : raw_row) : getitem (tokens r) 0 = Ok (track_of r).
Proof.
  unfold getitem, track_of, tokens.
  pose proof (split_nonempty "_" (audio_file r)) as Hne.
  destruct (split "_" (audio_file r)); [contradiction|reflexivity].
Qed.

Lemma getitem_only_IndexError {A} (l : list A) (i : nat) (e : exn) :
  getitem l i = Raise e -> e = IndexError.
Proof. unfold getitem. destruct (nth_error l i); congruence. Qed.

Lemma dict_getitem_only_KeyError {V} (d : gmap string V) k (e : exn) :
  dict_getitem d k = Raise e -> e = KeyError.
Proof. unfold dict_getitem. destruct (d !! k); congruence. Qed.

Lemma canon_ok (r : raw_row) :
  known_comparison r = true ->
  dict_getitem COMPARISONS (raw_comparison r) = Ok (canonical r).
Proof.
  unfold known_comparison, dict_getitem, canonical. intros H.
  apply bool_decide_eq_true in H. destruct H as [v Hv]. now rewrite Hv.
Qed.

Lemma canon_raise (r : raw_row) :
  known_comparison r = false ->
  is_ok (dict_getitem COMPARISONS (raw_comparison r)) = false.
Proof.
  unfold known_comparison, dict_getitem. intros H.
  apply bool_decide_eq_false in H.
  destruct (COMPARISONS !! raw_comparison r) eqn:E; [|reflexivity].
  exfalso. apply H. eauto.
Qed.

(** The store after the first two column assignments: every later step
    starts from here. *)
Lemma organize_data_unfold (h : heap) (data : ref) (rs : list raw_row) :
  h !! data = Some (raw_frame rs) ->
  organize_data data h =
    let h1 := <[data := set_comparison (map raw_comparison rs) (raw_frame rs)]> h in
    match series_apply (fun z => getitem z 4) (map tokens rs) with
    | Raise e => (h1, Raise e)
    | Ok snrs =>
        match series_apply (fun z => getitem z 0) (map tokens rs) with
        | Raise e => (<[data := set_snr snrs (h1 !!! data)]> h1, Raise e)
        | Ok tracks =>
            match series_apply (dict_getitem COMPARISONS)
                    (map raw_comparison rs) with
            | Raise e =>
                (<[data := Frame rs (Some (map raw_comparison rs)) (Some snrs)
                             (Some tracks) (Some (map type_of_track tracks))]> h,
                 Raise e)
            | Ok canon =>
                (<[data := Frame rs (Some canon) (Some snrs) (Some tracks)
                             (Some (map type_of_track tracks))]> h,
                 Ok data)
            end
        end
    end.
Proof.
  intros Hh.
  assert (Htot : h !!! data = raw_frame rs)
    by exact (lookup_total_correct _ _ _ Hh).
  unfold organize_data, insert_comparison, mbind, M_bind, bind, read,
    modify, lift, mret, M_ret, ret.
  cbv beta iota. rewrite !Htot.
  cbn [col_comparison raw_frame rows set_comparison].
  rewrite !lookup_total_insert_eq, ?Htot.
  cbn [col_comparison raw_frame rows set_comparison].
  change (map (fun r => split "_" (audio_file r)) rs) with (map tokens rs).
  change (map (fun r => (button_A r ++ "-" ++ button_B r)%string) rs)
    with (map raw_comparison rs).
  destruct (series_apply (fun z => getitem z 4) (map tokens rs)) as [snrs|e];
    [|reflexivity].
  destruct (series_apply (fun z => getitem z 0) (map tokens rs)) as [tracks|e];
    [|reflexivity].
  cbv beta iota.
  rewrite !lookup_total_insert_eq, !insert_insert_eq.
  cbn [col_comparison col_tracks rows set_comparison set_snr set_tracks
       set_type col_snr col_type default raw_frame].
  unfold id.
  destruct (series_apply (dict_getitem COMPARISONS) (map raw_comparison rs));
    [|reflexivity].
  rewrite insert_insert_eq. reflexivity.
Qed.

Lemma organize_data_ok (h : heap) (data : ref) (rs : list raw_row) :
  h !! data = Some (raw_frame rs) ->
  Forall (fun r => well_named r = true) rs ->
  Forall (fun r => known_comparison r = true) rs ->
  organize_data data h = (<[data := organized rs]> h, Ok data).
Proof.
  intros Hh Hnamed Hknown. rewrite (organize_data_unfold _ _ _ Hh).
  cbv zeta.
  rewrite (series_apply_ok (fun z => getitem z 4) (fun z => nth 4 z "")).
  2:{ apply List.Forall_map. eapply List.Forall_impl; [|exact Hnamed].
      intros r Hr. exact (getitem4_ok r Hr). }
  rewrite (series_apply_ok (fun z => getitem z 0) (fun z => nth 0 z "")).
  2:{ apply List.Forall_map. apply List.Forall_forall. intros r _.
      exact (getitem0_ok r). }
  rewrite (series_apply_ok (dict_getitem COMPARISONS)
             (fun c => default "" (COMPARISONS !! c))).
  2:{ apply List.Forall_map. eapply List.Forall_impl; [|exact Hknown].
      intros r Hr. exact (canon_ok r Hr). }
  unfold organized. rewrite !map_map. reflexivity.
Qed.

(** C3. On a raw table, [organize_data] raises as soon as one audio-file
    name has fewer than five tokens ([IndexError] from [z[4]], the
    specification's MalformedAudioFileName) or, the names being fine, one
    comparison is not a key of [COMPARISONS] ([KeyError], the
    specification's UnknownComparisonLabel); nothing is returned then, and
    no row is skipped. When every row passes both tests the call returns. *)
Theorem organize_data_hard_errors (h : heap) (data : ref)
    (rs : list raw_row) :
  h !! data = Some (raw_frame rs) ->
  (Exists (fun r => well_named r = false) rs ->
     (organize_data data h).2 = Raise IndexError)
  /\ (Forall (fun r => well_named r = true) rs ->
      Exists (fun r => known_comparison r = false) rs ->
      (organize_data data h).2 = Raise KeyError)
  /\ (Forall (fun r => well_named r = true) rs ->
      Forall (fun r => known_comparison r = true) rs ->
      (organize_data data h).2 = Ok data).
Proof.
  intros Hh. split; [|split].
  - intros Hbad. rewrite (organize_data_unfold _ _ _ Hh). cbv zeta.
    rewrite (series_apply_raise (fun z => getitem z 4) IndexError);
      [reflexivity| |].
    + intros z e. apply getitem_only_IndexError.
    + apply List.Exists_exists in Hbad as (r & Hin & Hr).
      apply List.Exists_exists. exists (tokens r). split.
      * now apply in_map.
      * now rewrite (getitem4_raise r Hr).
  - intros Hnamed Hbad. rewrite (organize_data_unfold _ _ _ Hh). cbv zeta.
    rewrite (series_apply_ok (fun z => getitem z 4) (fun z => nth 4 z "")).
    2:{ apply List.Forall_map. eapply List.Forall_impl; [|exact Hnamed].
        intros r Hr. exact (getitem4_ok r Hr). }
    rewrite (series_apply_ok (fun z => getitem z 0) (fun z => nth 0 z "")).
    2:{ apply List.Forall_map. apply List.Forall_forall. intros r _.
        exact (getitem0_ok r). }
    rewrite (series_apply_raise (dict_getitem COMPARISONS) KeyError);
      [reflexivity| |].
    + intros k e. apply dict_getitem_only_KeyError.
    + apply List.Exists_exists in Hbad as (r & Hin & Hr).
      apply List.Exists_exists. exists (raw_comparison r). split.
      * now apply in_map.
      * exact (canon_raise r Hr).
  - intros Hnamed Hknown.
    now rewrite (organize_data_ok _ _ _ Hh Hnamed Hknown).
Qed.

Lemma organize_data_hard_errors_witness :
  sample_heap !! 0%nat = Some (raw_frame [sample_row])
  /\ (organize_data 0 sample_heap).2 = Ok 0%nat.
Proof.
  split; [reflexivity|].
  apply (organize_data_hard_errors sample_heap 0%nat [sample_row]).
  - reflexivity.
  - repeat constructor.
  - repeat constructor.
Defined.

(** C9, as stated, fails: after the call the caller's table is no longer
    the raw table, it holds the four derived columns. *)
Lemma organize_data_changes_argument :
  (organize_data 0 sample_heap).1 !! 0%nat = Some (organized [sample_row])
  /\ (organize_data 0 sample_heap).1 !! 0%nat <> sample_heap !! 0%nat.
Proof.
  assert (H : (organize_data 0 sample_heap).1 !! 0%nat
              = Some (organized [sample_row])).
  { rewrite (organize_data_ok sample_heap 0%nat [sample_row]).
    - apply lookup_insert_eq.
    - reflexivity.
    - repeat constructor.
    - repeat constructor. }
  split; [exact H|]. rewrite H. discriminate.
Qed.

(** C9, amended. [organize_data] works in place: on a raw table whose
    rows are well formed it returns the very reference it was given, and
    the object behind it now holds the raw rows, unchanged, together with
    the columns [comparison], [snr], [tracks] and [type]; whatever the
    outcome, no other object of the store is touched. *)
Theorem organize_data_in_place (h : heap) (data : ref)
    (rs : list raw_row) :
  h !! data = Some (raw_frame rs) ->
  (Forall (fun r => well_named r = true) rs ->
   Forall (fun r => known_comparison r = true) rs ->
   (organize_data data h).2 = Ok data
   /\ (organize_data data h).1 !! data = Some (organized rs)
   /\ rows (organized rs) = rs)
  /\ (forall p : ref, p <> data ->
        (organize_data data h).1 !! p = h !! p).
Proof.
  intros Hh. split.
  - intros Hnamed Hknown.
    rewrite (organize_data_ok _ _ _ Hh Hnamed Hknown). simpl.
    rewrite lookup_insert_eq. auto.
  - intros p Hp. rewrite (organize_data_unfold _ _ _ Hh). cbv zeta.
    repeat match goal with
           | |- context [match ?x with Ok _ => _ | Raise _ => _ end] =>
               destruct x
           end; simpl;
      rewrite ?lookup_insert_ne by congruence; reflexivity.
Qed.

Lemma organize_data_in_place_witness :
  sample_heap !! 0%nat = Some (raw_frame [sample_row])
  /\ (organize_data 0 sample_heap).2 = Ok 0%nat
  /\ (organize_data 0 sample_heap).1 !! 0%nat
     = Some (organized [sample_row]).
Proof.
  split; [reflexivity|].
  destruct (organize_data_in_place sample_heap 0%nat [sample_row] eq_refl)
    as [Hok _].
  destruct Hok as (Hret & Hobj & _); [repeat constructor..|].
  split; assumption.
Defined.

(** *** One turn of the innermost loop *)

Lemma has_index_true (k : key) (r : drow) :
  has_index k r = true <-> index_of r = k.
Proof. unfold has_index. apply bool_decide_eq_true. Qed.

Lemma unique_index_one_row (df : list drow) (k : key) :
  NoDup (map index_of df) -> rows_at df k <= 1.
Proof.
  unfold rows_at.
  induction df as [|a df IH]; simpl; intros Hnd; [lia|].
  inversion Hnd as [|? ? Hnotin Hnd']; subst.
  destruct (has_index k a) eqn:Ha; [|now apply IH].
  apply has_index_true in Ha. simpl.
  rewrite (filter_none (has_index k) df); [simpl; lia|].
  intros x Hx. destruct (has_index k x) eqn:E; [|reflexivity].
  apply has_index_true in E. exfalso. apply Hnotin.
  apply list_elem_of_In. rewrite Ha, <- E. now apply in_map.
Qed.

Lemma drop_absent (df : list drow) (k : key) :
  List.filter (has_index k) df = [] -> drop df k = df.
Proof.
  intros H. unfold drop. apply filter_id. intros x Hx.
  destruct (has_index k x) eqn:E; [|reflexivity].
  assert (Hin : In x (List.filter (has_index k) df))
    by (apply filter_In; auto).
  rewrite H in Hin. destruct Hin.
Qed.

(** What the [try] block does depends on the number of rows under the
    entry only: the Series pandas returns when the index has no
    duplicate has at least six cells, and stands for a single row. *)
Lemma check_by_count (df : list drow) (k : key) :
  check df k = check_present df k.
Proof.
  unfold check, loc, check_present.
  pose proof (unique_index_one_row df k) as Hone. unfold rows_at in *.
  destruct (List.filter (has_index k) df) as [|r m] eqn:E.
  - simpl. symmetry. now apply drop_absent.
  - unfold index_is_unique. case_bool_decide as Hu.
    + specialize (Hone Hu). simpl in Hone.
      assert (m = []) by (destruct m; [reflexivity|simpl in Hone; lia]).
      subst m. reflexivity.
    + reflexivity.
Qed.

Lemma rows_at_drop (df : list drow) (k k' : key) :
  k' <> k -> rows_at (drop df k) k' = rows_at df k'.
Proof.
  intros Hne. unfold rows_at, drop. rewrite filter_twice. f_equal.
  apply filter_ext. intros r. destruct (has_index k' r) eqn:E.
  - apply has_index_true in E. unfold has_index.
    rewrite bool_decide_eq_false_2 by congruence. reflexivity.
  - apply andb_false_r.
Qed.

Lemma fold_check_present (ks : list key) (df : list drow) :
  fold_left check_present ks df = List.filter (keep ks df) df.
Proof.
  revert df. induction ks as [|k ks IH]; intros df; simpl.
  - symmetry. apply filter_id. reflexivity.
  - rewrite IH. unfold check_present.
    destruct (Nat.eqb (rows_at df k) 4) eqn:E4.
    + apply filter_ext. intros r. unfold keep. simpl.
      destruct (has_index k r) eqn:Ek; [|reflexivity].
      apply has_index_true in Ek. rewrite Ek, E4. simpl.
      apply orb_true_r.
    + unfold drop at 2. rewrite filter_twice.
      apply filter_ext. intros r. unfold keep. simpl.
      destruct (has_index k r) eqn:Ek; simpl.
      * apply has_index_true in Ek. rewrite Ek, E4. reflexivity.
      * rewrite rows_at_drop; [reflexivity|].
        intros Heq. apply has_index_true in Heq. congruence.
Qed.

(** Once every entry of the table has been visited, what is left is the
    rows whose entry occurs four times. *)
Lemma fold_check_present_all (ks : list key) (df : list drow) :
  (forall r, In r df -> In (index_of r) ks) ->
  fold_left check_present ks df
  = List.filter (fun r => Nat.eqb (rows_at df (index_of r)) 4) df.
Proof.
  intros Hall. rewrite fold_check_present. apply filter_ext_in.
  intros r Hr. unfold keep.
  replace (existsb (fun k => has_index k r) ks) with true; [reflexivity|].
  symmetry. apply existsb_exists. exists (index_of r).
  split; [now apply Hall|now apply has_index_true].
Qed.

(** *** One trial type *)

Lemma insert_row_perm (r : drow) (df : list drow) :
  Permutation (insert_row r df) (r :: df).
Proof.
  induction df as [|x df IH]; cbn [insert_row]; [reflexivity|].
  destruct (key_leb (index_of r) (index_of x)); [reflexivity|].
  rewrite IH. apply perm_swap.
Qed.

Lemma sort_index_perm (df : list drow) : Permutation (sort_index df) df.
Proof.
  unfold sort_index.
  induction df as [|r df IH]; cbn [fold_right]; [reflexivity|].
  rewrite insert_row_perm. now constructor.
Qed.

Lemma rows_at_perm (df df' : list drow) (k : key) :
  Permutation df df' -> rows_at df k = rows_at df' k.
Proof.
  intros H. unfold rows_at. apply Permutation_length. now apply filter_perm.
Qed.

Lemma clean_flat (df : list drow) :
  clean df
  = fold_left check_present
      (visited (unique (map (fun r => subject (d_raw r)) df))
               (unique (map comparison df))
               (unique (map snr df))
               (unique (map (fun r => condition (d_raw r)) df)))
      (sort_index df).
Proof.
  unfold clean, visited. cbv zeta.
  rewrite fold_left_flat_map. apply fold_left_ext. intros d1 s.
  rewrite fold_left_flat_map. apply fold_left_ext. intros d2 c.
  rewrite fold_left_flat_map. apply fold_left_ext. intros d3 n.
  rewrite fold_left_map. apply fold_left_ext. intros d4 d.
  apply check_by_count.
Qed.

Lemma visited_all (df : list drow) (r : drow) :
  In r df ->
  In (index_of r)
    (visited (unique (map (fun r => subject (d_raw r)) df))
             (unique (map comparison df))
             (unique (map snr df))
             (unique (map (fun r => condition (d_raw r)) df))).
Proof.
  intros Hr. unfold visited, index_of.
  apply in_flat_map. exists (subject (d_raw r)). split.
  { apply in_unique. now apply (in_map (fun r => subject (d_raw r))). }
  apply in_flat_map. exists (comparison r). split.
  { apply in_unique. now apply in_map. }
  apply in_flat_map. exists (snr r). split.
  { apply in_unique. now apply in_map. }
  apply in_map_iff. exists (condition (d_raw r)). split; [reflexivity|].
  apply in_unique. now apply (in_map (fun r => condition (d_raw r))).
Qed.

(** The nested loops leave the sorted table without the rows whose
    entry does not occur exactly four times. *)
Lemma clean_spec (df : list drow) :
  clean df = List.filter (four_at df) (sort_index df).
Proof.
  rewrite clean_flat, fold_check_present_all.
  - apply filter_ext. intros r. unfold four_at.
    now rewrite (rows_at_perm _ _ _ (sort_index_perm df)).
  - intros r Hr. apply visited_all.
    apply (Permutation_in _ (sort_index_perm df)). exact Hr.
Qed.

Lemma clean_present_keys_spec (df : list drow) :
  clean_present_keys df = List.filter (four_at df) (sort_index df).
Proof.
  unfold clean_present_keys. cbv zeta. rewrite fold_check_present_all.
  - apply filter_ext. intros r. unfold four_at.
    now rewrite (rows_at_perm _ _ _ (sort_index_perm df)).
  - intros r Hr. apply in_unique. apply in_map.
    apply (Permutation_in _ (sort_index_perm df)). exact Hr.
Qed.

Lemma clean_perm (df : list drow) :
  Permutation (clean df) (List.filter (four_at df) df).
Proof. rewrite clean_spec. apply filter_perm, sort_index_perm. Qed.

(** *** The whole filter *)

Lemma rows_at_partition (data : list drow) (r : drow) :
  rows_at (List.filter (fun x => Bool.eqb (is_pref r) (is_pref x)) data)
    (index_of r)
  = group_size data r.
Proof.
  unfold rows_at, group_size. rewrite filter_twice. reflexivity.
Qed.

Lemma four_at_prefs (data : list drow) (r : drow) :
  is_pref r = true ->
  four_at (List.filter is_pref data) r = complete data r.
Proof.
  intros Hr. unfold four_at, complete.
  rewrite <- rows_at_partition, Hr.
  rewrite (filter_ext is_pref (fun x => Bool.eqb true (is_pref x)));
    [reflexivity|].
  intros x. now destruct (is_pref x).
Qed.

Lemma four_at_noise (data : list drow) (r : drow) :
  is_pref r = false ->
  four_at (List.filter (fun x => negb (is_pref x)) data) r = complete data r.
Proof.
  intros Hr. unfold four_at, complete.
  rewrite <- rows_at_partition, Hr.
  rewrite (filter_ext (fun x => negb (is_pref x))
             (fun x => Bool.eqb false (is_pref x)));
    [reflexivity|].
  intros x. now destruct (is_pref x).
Qed.

Lemma complete_groups_perm (data : list drow) :
  Permutation
    (List.filter (four_at (List.filter is_pref data))
       (List.filter is_pref data)
     ++ List.filter (four_at (List.filter (fun x => negb (is_pref x)) data))
          (List.filter (fun x => negb (is_pref x)) data))
    (List.filter (complete data) data).
Proof.
  rewrite (filter_ext_in (four_at (List.filter is_pref data)) (complete data)).
  2:{ intros r Hr. apply filter_In in Hr as [_ Hr]. now apply four_at_prefs. }
  rewrite (filter_ext_in
             (four_at (List.filter (fun x => negb (is_pref x)) data))
             (complete data)).
  2:{ intros r Hr. apply filter_In in Hr as [_ Hr].
      apply four_at_noise. now destruct (is_pref r). }
  rewrite !filter_twice.
  rewrite (filter_ext (fun x => is_pref x && complete data x)
             (fun x => complete data x && is_pref x))
    by (intros x; apply andb_comm).
  rewrite (filter_ext (fun x => negb (is_pref x) && complete data x)
             (fun x => complete data x && negb (is_pref x)))
    by (intros x; apply andb_comm).
  rewrite <- !filter_twice. apply filter_split_perm.
Qed.

Lemma remove_incomplete_perm (data : list drow) :
  Permutation (remove_incomplete_datasets data)
    (List.filter (complete data) data).
Proof.
  unfold remove_incomplete_datasets. cbv zeta.
  etransitivity; [|apply complete_groups_perm].
  apply Permutation_app; apply clean_perm.
Qed.

Lemma same_group_size (data : list drow) (r r' : drow) :
  same_group r r' = true -> group_size data r = group_size data r'.
Proof.
  unfold same_group. intros H. apply andb_true_iff in H as [Hp Hk].
  apply Bool.eqb_prop in Hp. apply has_index_true in Hk.
  unfold group_size. f_equal. apply filter_ext. intros x.
  unfold same_group. now rewrite Hp, Hk.
Qed.

Lemma survives_iff (data : list drow) (r : drow) :
  In r (remove_incomplete_datasets data)
  <-> In r data /\ group_size data r = 4.
Proof.
  split.
  - intros H. apply (Permutation_in _ (remove_incomplete_perm data)) in H.
    apply filter_In in H as [Hin Hc]. split; [exact Hin|].
    now apply Nat.eqb_eq.
  - intros [Hin Hc].
    apply (Permutation_in _ (Permutation_sym (remove_incomplete_perm data))).
    apply filter_In. split; [exact Hin|]. now apply Nat.eqb_eq.
Qed.

(** C1. A row of an organized table survives
    [remove_incomplete_datasets] exactly when its group, the rows of the
    same trial type (pref or not) with the same
    (subject, comparison, snr, condition), has four members. The output
    is the input without the rows of the other groups, up to order and
    with multiplicities; two rows of one group survive or go together,
    so no group is cut down to four. *)
Theorem remove_incomplete_datasets_complete_groups (data : list drow) :
  Permutation (remove_incomplete_datasets data)
    (List.filter (complete data) data)
  /\ (forall r, In r (remove_incomplete_datasets data)
               <-> In r data /\ group_size data r = 4)
  /\ (forall r r', In r data -> In r' data -> same_group r r' = true ->
        (In r (remove_incomplete_datasets data)
         <-> In r' (remove_incomplete_datasets data))).
Proof.
  split; [apply remove_incomplete_perm|].
  split; [apply survives_iff|].
  intros r r' Hr Hr' Hg. rewrite !survives_iff.
  rewrite (same_group_size data r r' Hg). tauto.
Qed.

(** The two scenarios of the specification, through both functions:
    four trials of subject 1 with buttons DAM_3 and DAM_OFF at SNR 5 in
    condition A are all kept, with the comparison turned to
    DAM_OFF-DAM_3; three such trials are all dropped. *)
Example four_trials_kept :
  records (organized (repeat sample_row 4))
  = Some (repeat (trial "1" "pref") 4)
  /\ remove_incomplete_datasets (repeat (trial "1" "pref") 4)
     = repeat (trial "1" "pref") 4.
Proof. split; vm_compute; reflexivity. Qed.

Example three_trials_dropped :
  records (organized (repeat sample_row 3))
  = Some (repeat (trial "1" "pref") 3)
  /\ remove_incomplete_datasets (repeat (trial "1" "pref") 3) = [].
Proof. split; vm_compute; reflexivity. Qed.

(** *** The two enumeration strategies *)

Lemma strategies_agree (data : list drow) :
  remove_incomplete_datasets data = remove_incomplete_present_keys data.
Proof.
  unfold remove_incomplete_datasets, remove_incomplete_present_keys.
  cbv zeta. now rewrite !clean_spec, !clean_present_keys_spec.
Qed.

(** C5, as stated, fails: no table tells the two strategies apart. *)
Lemma no_table_separates_strategies :
  ~ exists data : list drow,
      remove_incomplete_datasets data <> remove_incomplete_present_keys data.
Proof. intros [data H]. apply H. apply strategies_agree. Qed.

(** C5, amended. Walking the full product of the observed values and
    walking only the index entries that occur give the same table on
    every input: a group with two of its four rows is an entry that
    occurs, and a combination without rows is skipped by the product
    walk. *)
Theorem product_walk_equals_present_keys_walk (data : list drow) :
  remove_incomplete_datasets data = remove_incomplete_present_keys data.
Proof. apply strategies_agree. Qed.

(** On [partial_table] both strategies drop the two rows of subject 2
    and keep the four of subject 1. *)
Example partial_group_dropped :
  remove_incomplete_datasets partial_table
  = [trial "1" "pref"; trial "1" "pref"; trial "1" "pref"; trial "1" "pref"]
  /\ remove_incomplete_present_keys partial_table
     = [trial "1" "pref"; trial "1" "pref"; trial "1" "pref";
        trial "1" "pref"].
Proof. split; vm_compute; reflexivity. Qed.

End DamFacts.

(** ** REM *)

Module RemFacts.
Import Rem PyFacts.

(** *** [collapse_form_factors] *)

Lemma rics_not_customs (f : string) :
  contains RICS f = true -> contains CUSTOMS f = false.
Proof.
  rewrite contains_In. simpl.
  intros [<-|[<-|[<-|[]]]]; reflexivity.
Qed.

Lemma collapse_verifit_perm (v : list vrow) :
  Permutation (collapse_verifit v) (omap relabel_v v).
Proof.
  unfold collapse_verifit. cbv zeta.
  induction v as [|r v IH]; [constructor|].
  change (omap relabel_v (r :: v))
    with (match relabel_v r with
          | Some y => y :: omap relabel_v v
          | None => omap relabel_v v
          end).
  cbn [List.filter]. unfold relabel_v at 1, bucket.
  destruct (contains RICS (form_factor r)) eqn:ER.
  - rewrite (rics_not_customs _ ER). cbn [map app]. now constructor.
  - destruct (contains CUSTOMS (form_factor r)) eqn:EC; [|exact IH].
    cbn [map]. symmetry. apply Permutation_cons_app. now symmetry.
Qed.

Lemma collapse_estat_perm (e : list erow) :
  Permutation (collapse_estat e) (omap relabel_e e).
Proof.
  unfold collapse_estat. cbv zeta.
  induction e as [|t e IH]; [constructor|].
  change (omap relabel_e (t :: e))
    with (match relabel_e t with
          | Some y => y :: omap relabel_e e
          | None => omap relabel_e e
          end).
  cbn [List.filter]. unfold relabel_e at 1, bucket.
  destruct (contains RICS (eform_factor t)) eqn:ER.
  - rewrite (rics_not_customs _ ER). cbn [map app]. now constructor.
  - destruct (contains CUSTOMS (eform_factor t)) eqn:EC; [|exact IH].
    cbn [map]. symmetry. apply Permutation_cons_app. now symmetry.
Qed.

Lemma collapse_verifit_labels (v : list vrow) :
  Forall (fun r => form_factor r = "allRIC"
                   \/ form_factor r = "WirelessCustoms")
    (collapse_verifit v).
Proof.
  unfold collapse_verifit. cbv zeta. apply List.Forall_app. split;
    apply List.Forall_map, List.Forall_forall; intros r _; simpl; auto.
Qed.

Lemma collapse_estat_labels (e : list erow) :
  Forall (fun t => eform_factor t = "allRIC"
                   \/ eform_factor t = "WirelessCustoms")
    (collapse_estat e).
Proof.
  unfold collapse_estat. cbv zeta. apply List.Forall_app. split;
    apply List.Forall_map, List.Forall_forall; intros r _; simpl; auto.
Qed.

Lemma bucket_None (f : string) :
  bucket f = None
  <-> ~ In f ["RIC_RT"; "RIC312"; "MRIC"; "ITC"; "ITE"; "CIC"].
Proof.
  unfold bucket.
  destruct (contains RICS f) eqn:ER.
  - apply contains_In in ER. split; [discriminate|]. intros H.
    exfalso. apply H. simpl in *. tauto.
  - destruct (contains CUSTOMS f) eqn:EC.
    + apply contains_In in EC. split; [discriminate|]. intros H.
      exfalso. apply H. simpl in *. tauto.
    + split; [|reflexivity]. intros _ Hin.
      assert (In f RICS \/ In f CUSTOMS) as [H|H] by (simpl in *; tauto).
      * apply contains_In in H. congruence.
      * apply contains_In in H. congruence.
Qed.

(** C10. [collapse_form_factors] keeps, in either table, the rows whose
    form factor is RIC_RT, RIC312 or MRIC (relabelled allRIC) and those
    whose form factor is ITC, ITE or CIC (relabelled WirelessCustoms), each
    once and otherwise unchanged; a row with any other label has no bucket
    and is not in the collapsed table; no other label occurs there. *)
Theorem collapse_form_factors_buckets (self : DataModel) :
  (exists v' e',
      verifit_collapsed (collapse_form_factors self) = Some v'
      /\ estat_collapsed (collapse_form_factors self) = Some e'
      /\ Permutation v' (omap relabel_v (vdf self))
      /\ Permutation e' (omap relabel_e (edf self))
      /\ Forall (fun r => form_factor r = "allRIC"
                          \/ form_factor r = "WirelessCustoms") v'
      /\ Forall (fun t => eform_factor t = "allRIC"
                          \/ eform_factor t = "WirelessCustoms") e')
  /\ (forall f, bucket f = None
                <-> ~ In f ["RIC_RT"; "RIC312"; "MRIC"; "ITC"; "ITE"; "CIC"])
  /\ (forall f, In f ["RIC_RT"; "RIC312"; "MRIC"] -> bucket f = Some "allRIC")
  /\ (forall f, In f ["ITC"; "ITE"; "CIC"] ->
                bucket f = Some "WirelessCustoms").
Proof.
  split; [|split; [exact bucket_None|split]].
  - exists (collapse_verifit (vdf self)), (collapse_estat (edf self)).
    repeat split.
    + apply collapse_verifit_perm.
    + apply collapse_estat_perm.
    + apply collapse_verifit_labels.
    + apply collapse_estat_labels.
  - simpl. intros f [<-|[<-|[<-|[]]]]; reflexivity.
  - simpl. intros f [<-|[<-|[<-|[]]]]; reflexivity.
Qed.

(** *** [_assign_form_factors] *)

Lemma combine_map_same {A B C} (f : A -> B) (g : A -> C) (l : list A) :
  combine (map f l) (map g l) = map (fun x => (f x, g x)) l.
Proof. induction l as [|a l IH]; simpl; [reflexivity|]. now rewrite IH. Qed.

(** The dict holds the distinct (subject, form factor) pairs of the
    target table, stored in sorted order. *)
Lemma form_factor_dict_eq (e : list erow) :
  form_factor_dict e
  = store_all
      (merge_sort pair_le
         (unique (map (fun t => (esubject t, eform_factor t)) e)))
      ∅.
Proof.
  unfold form_factor_dict, dict_zip, groupby_size, store_all. cbv zeta.
  rewrite combine_map_same, map_map. f_equal.
  rewrite <- (map_id (merge_sort _ _)) at 2.
  apply map_ext. intros [s f]. reflexivity.
Qed.

Lemma in_sorted_pairs (e : list erow) (p : string * string) :
  In p (merge_sort pair_le
          (unique (map (fun t => (esubject t, eform_factor t)) e)))
  <-> exists t, In t e /\ esubject t = p.1 /\ eform_factor t = p.2.
Proof.
  split.
  - intros H. apply (Permutation_in _ (merge_sort_Permutation _ _)) in H.
    apply in_unique, in_map_iff in H as (t & Ht & Hin).
    exists t. subst p. auto.
  - intros (t & Hin & Hs & Hf).
    apply (Permutation_in _ (Permutation_sym (merge_sort_Permutation _ _))).
    apply in_unique, in_map_iff. exists t. split; [|exact Hin].
    destruct p. simpl in *. congruence.
Qed.

Lemma form_factor_dict_Some (e : list erow) (s f : string) :
  form_factor_dict e !! s = Some f ->
  exists t, In t e /\ esubject t = s /\ eform_factor t = f.
Proof.
  rewrite form_factor_dict_eq. intros H.
  apply store_all_lookup_Some in H as [H|H].
  - now apply in_sorted_pairs in H.
  - rewrite lookup_empty in H. discriminate.
Qed.

Lemma form_factor_dict_known (e : list erow) (s : string) :
  In s (map esubject e) -> is_Some (form_factor_dict e !! s).
Proof.
  rewrite form_factor_dict_eq. intros H. apply store_all_is_Some.
  apply in_map_iff in H as (t & Hs & Hin).
  apply in_map_iff. exists (s, eform_factor t). split; [reflexivity|].
  apply in_sorted_pairs. exists t. auto.
Qed.

Lemma form_factor_dict_unknown (e : list erow) (s : string) :
  ~ In s (map esubject e) -> form_factor_dict e !! s = None.
Proof.
  rewrite form_factor_dict_eq. intros H.
  rewrite store_all_lookup_absent; [apply lookup_empty|].
  intros Hin. apply H. apply in_map_iff in Hin as ([s' f] & Hs & Hin).
  simpl in Hs. subst s'.
  apply in_sorted_pairs in Hin as (t & Ht & Hts & _).
  apply in_map_iff. exists t. auto.
Qed.

Section AssignRows.
Variable temp : gmap string string.

(** The loop rewrites the rows from position [k] on, one after the
    other, when every look-up succeeds. *)
Lemma assign_rows_ok (n k : nat) (v : list vrow) :
  k + n = length v ->
  Forall (fun r => is_Some (temp !! subject r)) (drop k v) ->
  assign_rows temp (seq k n) v
  = (take k v ++ map (assigned temp) (drop k v), Ok tt).
Proof.
  revert k v. induction n as [|n IH]; intros k v Hlen Hall.
  - simpl. rewrite drop_ge, take_ge by lia. simpl. now rewrite app_nil_r.
  - destruct (lookup_lt_is_Some_2 v k) as [r Hr]; [lia|].
    rewrite (drop_S _ _ _ Hr) in Hall |- *.
    inversion Hall as [|? ? [f Hf] Hall']; subst.
    cbn [seq assign_rows]. rewrite Hr. unfold dict_getitem. rewrite Hf.
    rewrite IH.
    + rewrite (take_S_r _ _ (set_form_factor f r))
        by (apply list_lookup_insert_eq; lia).
      rewrite take_insert_ge, drop_insert_lt by lia.
      rewrite <- app_assoc. cbn [map app]. unfold assigned at 2.
      rewrite Hf. reflexivity.
    + rewrite length_insert. lia.
    + rewrite drop_insert_lt by lia. exact Hall'.
Qed.

(** It stops with [KeyError] at the first subject the dict lacks. *)
Lemma assign_rows_raise (n k : nat) (v : list vrow) :
  k + n = length v ->
  Exists (fun r => temp !! subject r = None) (drop k v) ->
  (assign_rows temp (seq k n) v).2 = Raise KeyError.
Proof.
  revert k v. induction n as [|n IH]; intros k v Hlen Hex.
  - rewrite drop_ge in Hex by lia. inversion Hex.
  - destruct (lookup_lt_is_Some_2 v k) as [r Hr]; [lia|].
    rewrite (drop_S _ _ _ Hr) in Hex.
    cbn [seq assign_rows]. rewrite Hr. unfold dict_getitem.
    destruct (temp !! subject r) as [f|] eqn:Hf; [|reflexivity].
    apply IH.
    + rewrite length_insert. lia.
    + rewrite drop_insert_lt by lia.
      inversion Hex as [? ? Hbad|]; subst; [congruence|assumption].
Qed.

End AssignRows.

Lemma Forall2_map_self {A B} (P : A -> B -> Prop) (f : A -> B) (l : list A) :
  (forall x, In x l -> P x (f x)) -> Forall2 P l (map f l).
Proof.
  induction l as [|a l IH]; intros H; simpl; constructor.
  - apply H. now left.
  - apply IH. intros x Hx. apply H. now right.
Qed.

Lemma assign_form_factors_ok (self : DataModel) :
  (forall r, In r (vdf self) -> In (subject r) (map esubject (edf self))) ->
  _assign_form_factors self
  = (set_vdf (map (assigned (form_factor_dict (edf self))) (vdf self)) self,
     Ok tt).
Proof.
  intros Hall. unfold _assign_form_factors. cbv zeta.
  rewrite assign_rows_ok; [reflexivity|reflexivity|].
  rewrite drop_0. apply List.Forall_forall. intros r Hr.
  apply form_factor_dict_known. now apply Hall.
Qed.

Lemma assign_form_factors_raise (self : DataModel) :
  (exists r, In r (vdf self)
             /\ ~ In (subject r) (map esubject (edf self))) ->
  (_assign_form_factors self).2 = Raise KeyError.
Proof.
  intros (r & Hr & Hunk). unfold _assign_form_factors. cbv zeta.
  cbn [snd]. apply assign_rows_raise; [reflexivity|].
  rewrite drop_0. apply List.Exists_exists. exists r. split; [exact Hr|].
  now apply form_factor_dict_unknown.
Qed.

(** C4. [_assign_form_factors] raises ([KeyError], the specification's
    UnassignableSubject) exactly when the Verifit table has a subject
    that the e-STAT table lacks. Otherwise it completes: every Verifit
    row gets the form factor of an e-STAT row of its subject, its other
    cells and the e-STAT table stay as they were. *)
Theorem assign_form_factors_total (self : DataModel) :
  ((_assign_form_factors self).2 = Raise KeyError
   <-> exists r, In r (vdf self)
                 /\ ~ In (subject r) (map esubject (edf self)))
  /\ ((forall r, In r (vdf self) ->
                 In (subject r) (map esubject (edf self))) ->
      (_assign_form_factors self).2 = Ok tt
      /\ edf (_assign_form_factors self).1 = edf self
      /\ Forall2
           (fun r r' =>
              r' = set_form_factor (form_factor r') r
              /\ exists t, In t (edf self) /\ esubject t = subject r
                           /\ eform_factor t = form_factor r')
           (vdf self) (vdf (_assign_form_factors self).1)).
Proof.
  split; [split|].
  - intros Hraise.
    destruct (List.Forall_Exists_dec
                (fun r => In (subject r) (map esubject (edf self)))
                (fun r => in_dec string_dec (subject r)
                            (map esubject (edf self)))
                (vdf self)) as [Hall|Hex].
    + rewrite assign_form_factors_ok in Hraise; [discriminate|].
      now apply List.Forall_forall.
    + apply List.Exists_exists in Hex. exact Hex.
  - apply assign_form_factors_raise.
  - intros Hall. rewrite (assign_form_factors_ok self Hall). cbn [fst snd].
    split; [reflexivity|]. split; [reflexivity|].
    cbn [vdf set_vdf]. apply Forall2_map_self. intros r Hr.
    destruct (form_factor_dict_known (edf self) (subject r) (Hall r Hr))
      as [f Hf].
    unfold assigned. rewrite Hf. cbn [default form_factor set_form_factor].
    split; [reflexivity|]. now apply form_factor_dict_Some.
Qed.

(** A measured subject without target: the call raises after it has
    filled in the rows before it. *)
Example unknown_subject_raises :
  _assign_form_factors (new_model unknown_subject_v scenario_e)
  = (new_model [ VRow "S1" "TargetMatch" "RIC_RT" 1000 50 52;
                 VRow "S3" "TargetMatch" "" 1000 60 61 ] scenario_e,
     Raise KeyError).
Proof. vm_compute. reflexivity. Qed.

(** *** The dict of groups *)

Lemma dict_key_inj (c c' f f' : string) :
  no_underscore c = true -> no_underscore c' = true ->
  dict_key c f = dict_key c' f' -> c = c' /\ f = f'.
Proof.
  unfold dict_key. revert c'.
  induction c as [|a c IH]; intros [|b c'] Hc Hc' Heq; simpl in *.
  - inversion Heq. auto.
  - inversion Heq; subst. now rewrite Ascii.eqb_refl in Hc'.
  - inversion Heq; subst. now rewrite Ascii.eqb_refl in Hc.
  - inversion Heq; subst.
    apply andb_true_iff in Hc as [_ Hc], Hc' as [_ Hc'].
    destruct (IH c' Hc Hc' ltac:(assumption)) as [-> ->]. auto.
Qed.

Lemma nested_store {V} (conds forms : list string)
    (g : string -> string -> V) (d : gmap string V) :
  fold_left (fun d c =>
    fold_left (fun d f => <[dict_key c f := g c f]> d) forms d) conds d
  = store_all (entries conds forms g) d.
Proof.
  unfold store_all, entries. rewrite fold_left_flat_map.
  apply fold_left_ext. intros d' c. now rewrite fold_left_map.
Qed.

Lemma in_entries {V} (conds forms : list string)
    (g : string -> string -> V) (k : string) (v : V) :
  In (k, v) (entries conds forms g)
  <-> exists c f, In c conds /\ In f forms /\ k = dict_key c f
                  /\ v = g c f.
Proof.
  unfold entries. rewrite in_flat_map. split.
  - intros (c & Hc & Hin). apply in_map_iff in Hin as (f & Heq & Hf).
    inversion Heq; subst. eauto 8.
  - intros (c & f & Hc & Hf & -> & ->). exists c. split; [exact Hc|].
    apply in_map_iff. eauto.
Qed.

Section Groups.
Context {V : Type} (conds forms : list string) (g : string -> string -> V).
Hypothesis conds_plain : Forall (fun c => no_underscore c = true) conds.

Lemma entries_lookup (c f : string) :
  In c conds -> In f forms ->
  store_all (entries conds forms g) ∅ !! dict_key c f = Some (g c f).
Proof.
  intros Hc Hf. apply store_all_lookup_in.
  - apply in_entries. eauto 8.
  - intros v' Hv'. apply in_entries in Hv' as (c' & f' & Hc' & Hf' & Hk & ->).
    rewrite List.Forall_forall in conds_plain.
    destruct (dict_key_inj c c' f f') as [-> ->]; auto.
Qed.

Lemma entries_lookup_absent (c f : string) :
  no_underscore c = true -> ~ (In c conds /\ In f forms) ->
  store_all (entries conds forms g) ∅ !! dict_key c f = None.
Proof.
  intros Hplain Habs. rewrite store_all_lookup_absent; [apply lookup_empty|].
  intros Hin. apply in_map_iff in Hin as ([k v] & Hk & Hin).
  simpl in Hk. subst k.
  apply in_entries in Hin as (c' & f' & Hc' & Hf' & Hk & _).
  rewrite List.Forall_forall in conds_plain.
  destruct (dict_key_inj c' c f' f) as [-> ->]; auto.
Qed.

End Groups.

Lemma assign_diffs_measured {B} (d : vrow -> B -> Z * Z) (v : list vrow)
    (o : list B) :
  map measured (assign_diffs d v o) = v.
Proof.
  revert o. induction v as [|m v IH]; intros o; simpl; [reflexivity|].
  destruct o; simpl; now rewrite IH.
Qed.

Lemma assign_diffs_nil {B} (d : vrow -> B -> Z * Z) (o : list B) :
  assign_diffs d [] o = [].
Proof. reflexivity. Qed.

Lemma diff_from_estat_eq (vd : list vrow) (ed : list erow) :
  diff_from_estat vd ed
  = store_all
      (entries (unique (map condition vd)) (unique (map form_factor vd))
         (fun c f =>
            assign_diffs
              (estat_diff (same_index (select_v vd c f)
                             (select_e ed f (select_v vd c f))))
              (select_v vd c f) (select_e ed f (select_v vd c f))))
      ∅.
Proof. unfold diff_from_estat. now rewrite nested_store. Qed.

Lemma plain_conditions (vd : list vrow) :
  Forall (fun r => no_underscore (condition r) = true) vd ->
  Forall (fun c => no_underscore c = true) (unique (map condition vd)).
Proof.
  intros H. apply List.Forall_forall. intros c Hc.
  apply in_unique, in_map_iff in Hc as (r & <- & Hr).
  rewrite List.Forall_forall in H. now apply H.
Qed.

Lemma select_v_empty (vd : list vrow) (c f : string) :
  ~ (In c (map condition vd) /\ In f (map form_factor vd)) ->
  select_v vd c f = [].
Proof.
  intros H. unfold select_v. apply filter_none. intros r Hr.
  destruct (String.eqb (condition r) c) eqn:Ec; [|reflexivity].
  destruct (String.eqb (form_factor r) f) eqn:Ef; [|reflexivity].
  apply String.eqb_eq in Ec, Ef. exfalso. apply H. subst.
  split; now apply in_map.
Qed.

(** With plain condition labels no two turns of the loops write the
    same key: the group of a pair is what its turn computed. *)
Lemma group_diff_from_estat (vd : list vrow) (ed : list erow) (c f : string) :
  Forall (fun r => no_underscore (condition r) = true) vd ->
  no_underscore c = true ->
  group (diff_from_estat vd ed) (dict_key c f)
  = assign_diffs
      (estat_diff (same_index (select_v vd c f)
                     (select_e ed f (select_v vd c f))))
      (select_v vd c f) (select_e ed f (select_v vd c f)).
Proof.
  intros Hplain Hc. rewrite diff_from_estat_eq. unfold group.
  destruct (in_dec string_dec c (map condition vd)) as [Hic|Hic];
    [destruct (in_dec string_dec f (map form_factor vd)) as [Hif|Hif]|].
  - rewrite entries_lookup; [reflexivity| | |].
    + now apply plain_conditions.
    + now apply in_unique.
    + now apply in_unique.
  - rewrite entries_lookup_absent, select_v_empty; try tauto.
    + now apply plain_conditions.
    + rewrite !in_unique. tauto.
  - rewrite entries_lookup_absent, select_v_empty; try tauto.
    + now apply plain_conditions.
    + rewrite !in_unique. tauto.
Qed.

(** *** [_diff_from_estat] *)

Lemma select_e_sub (ed : list erow) (f : string) (v : list vrow) (t : erow) :
  In t (select_e ed f v) -> In t ed.
Proof. unfold select_e. intros H. now apply filter_In in H. Qed.

Lemma same_index_Forall2 {A B} (P : A -> B -> Prop) (l : list A)
    (l' : list B) :
  Forall2 P l l' -> same_index l l' = true.
Proof.
  intros H. unfold same_index. apply Nat.eqb_eq.
  induction H; simpl; congruence.
Qed.

Lemma int64_wrap_exact (z : Z) : in_int64 z -> int64_wrap z = z.
Proof.
  unfold in_int64, int64_wrap. intros H.
  rewrite Z.mod_small by lia. lia.
Qed.

Lemma aligned_key_matched (ed : list erow) (v : list vrow) (e : list erow) :
  Forall2 paired v e -> Forall2 exact_diffs v e ->
  (forall t, In t e -> In t ed) ->
  Forall (key_matched ed) (assign_diffs (estat_diff true) v e).
Proof.
  induction 1 as [|m t v e Hp _ IH]; intros Hex Hsub; simpl; constructor.
  - inversion Hex as [|? ? ? ? [Hl Hr] _]; subst.
    exists t. cbn [measured left_diff right_diff estat_diff series_sub fst snd].
    rewrite !int64_wrap_exact by assumption.
    split; [apply Hsub; now left|]. auto.
  - inversion Hex; subst. apply IH; [assumption|].
    intros t' Ht'. apply Hsub. now right.
Qed.

Lemma assign_diffs_length {B} (d : vrow -> B -> Z * Z) (v : list vrow)
    (o : list B) :
  length (assign_diffs d v o) = length v.
Proof.
  revert o. induction v as [|m v IH]; intros o; simpl; [reflexivity|].
  destruct o; simpl; now rewrite IH.
Qed.

Lemma assign_diffs_lookup (b : bool) (v : list vrow) (e : list erow)
    (i : nat) (m : vrow) :
  v !! i = Some m ->
  exists d, assign_diffs (estat_diff b) v e !! i = Some d /\ measured d = m
    /\ match e !! i with
       | Some t =>
           left_diff d = Some (series_sub b (left65 m) (left t))
           /\ right_diff d = Some (series_sub b (right65 m) (right t))
       | None => left_diff d = None /\ right_diff d = None
       end.
Proof.
  revert e i. induction v as [|m0 v IH]; intros e i Hi; [discriminate|].
  destruct i as [|i].
  - inversion Hi; subst. destruct e as [|t e]; simpl; eauto 6.
  - destruct e as [|t e]; simpl in *.
    + destruct (IH [] i Hi) as (d & Hd & Hm & Hn).
      exists d. now rewrite lookup_nil in Hn.
    + apply (IH e i Hi).
Qed.

Lemma assign_diffs_by_position (v : list vrow) (e : list erow) :
  by_position v e (assign_diffs (estat_diff (same_index v e)) v e).
Proof.
  split; [apply assign_diffs_length|].
  intros i m Hi. now apply assign_diffs_lookup.
Qed.

Example swapped_group :
  diff_from_estat swapped_v swapped_e !! dict_key "TargetMatch" "RIC_RT"
  = Some [ Dev (VRow "S2" "TargetMatch" "RIC_RT" 1000 60 61)
             (Some 15%Z) (Some 11%Z);
           Dev (VRow "S1" "TargetMatch" "RIC_RT" 1000 50 52)
             (Some 10%Z) (Some 11%Z) ].
Proof. vm_compute. reflexivity. Qed.

(** C2, as stated, fails: with the two subjects listed in opposite
    orders in the two tables, the row of S2 carries 60 - 45, a
    difference against the target of S1. *)
Lemma swapped_tables_mispaired :
  ~ diffs_against_own_target swapped_v swapped_e.
Proof.
  intros H.
  destruct (H "TargetMatch" "RIC_RT") as (g & Hg & _ & Hall);
    [now left|].
  rewrite swapped_group in Hg. inversion Hg; subst g. clear Hg.
  inversion Hall as [|? ? (t & Hin & (Hs & _) & Hl & _) _]; subst.
  simpl in Hin, Hs, Hl.
  destruct Hin as [<-|[<-|[]]]; simpl in *; discriminate.
Qed.

(** The preconditions of the amended C2 are needed. With underscores
    in the condition labels two pairs can share a key, and the later
    turn of the loops replaces the group of the earlier one. *)
Example underscore_labels_share_a_key :
  In ("A", "B_C") (map (fun r => (condition r, form_factor r)) shared_key_v)
  /\ dict_key "A" "B_C" = dict_key "A_B" "C"
  /\ diff_from_estat shared_key_v [] !! dict_key "A" "B_C"
     = Some [ Dev (VRow "S2" "A_B" "C" 1000 60 61) None None ].
Proof. split; [now left|]. split; vm_compute; reflexivity. Qed.

(** Two tables of the same length are subtracted as int64 arrays: the
    difference 2^63 wraps around to -2^63. *)
Example int64_difference_wraps :
  diff_from_estat wrapping_v wrapping_e !! dict_key "TargetMatch" "RIC_RT"
  = Some [ Dev (VRow "S1" "TargetMatch" "RIC_RT" 1000 9223372036854775807 52)
             (Some (-9223372036854775808)%Z) (Some 2%Z) ].
Proof. vm_compute. reflexivity. Qed.

(** Two tables of different lengths are subtracted as float64 arrays:
    2^53 + 1 is rounded to 2^53, and the row without target gets NaN. *)
Example uneven_tables_float64 :
  diff_from_estat uneven_v uneven_e !! dict_key "TargetMatch" "RIC_RT"
  = Some [ Dev (VRow "S1" "TargetMatch" "RIC_RT" 1000 9007199254740993 52)
             (Some 9007199254740992%Z) (Some 2%Z);
           Dev (VRow "S1" "TargetMatch" "RIC_RT" 2000 50 52) None None ].
Proof. vm_compute. reflexivity. Qed.

(** C2, amended. When the condition labels contain no underscore (as
    after [_organize_verifit_data]), for every pair (condition, form
    factor) of the measured table the dict holds under [condition_form]
    one group: the pair's measured rows in order, the i-th of them with
    the differences [left65 - left] and [right65 - right] against the
    i-th selected target row (the target rows of that form factor whose
    subject is among the pair's measured rows, in table order), in the
    arithmetic of the columns, and with NaN when there is no i-th
    target row. When moreover the two selections line up row for row by
    subject and frequency and the differences are int64 values, each
    row carries exactly [left65 - left] and [right65 - right] against
    the target of its own subject, form factor and frequency. The
    scenario of the specification gives 5 and 2. *)
Theorem diff_from_estat_by_position (vd : list vrow) (ed : list erow)
    (cond form : string) :
  Forall (fun r => no_underscore (condition r) = true) vd ->
  In (cond, form) (map (fun r => (condition r, form_factor r)) vd) ->
  (exists g,
      diff_from_estat vd ed !! dict_key cond form = Some g
      /\ map measured g = select_v vd cond form
      /\ by_position (select_v vd cond form)
           (select_e ed form (select_v vd cond form)) g
      /\ (Forall2 paired (select_v vd cond form)
            (select_e ed form (select_v vd cond form)) ->
          Forall2 exact_diffs (select_v vd cond form)
            (select_e ed form (select_v vd cond form)) ->
          Forall (key_matched ed) g))
  /\ diff_from_estat scenario_v scenario_e
       !! dict_key "TargetMatch" "RIC_RT"
     = Some [ Dev (VRow "S1" "TargetMatch" "RIC_RT" 1000 50 52)
                (Some 5%Z) (Some 2%Z) ].
Proof.
  intros Hplain Hin. split; [|vm_compute; reflexivity].
  apply in_map_iff in Hin as (r & Heq & Hr). inversion Heq; subst.
  set (v := select_v vd (condition r) (form_factor r)).
  set (e := select_e ed (form_factor r) v).
  exists (assign_diffs (estat_diff (same_index v e)) v e).
  split; [|split; [|split]].
  - rewrite diff_from_estat_eq, entries_lookup; [reflexivity| | |].
    + now apply plain_conditions.
    + apply in_unique. now apply in_map.
    + apply in_unique. now apply in_map.
  - apply assign_diffs_measured.
  - apply assign_diffs_by_position.
  - intros Hal Hex. rewrite (same_index_Forall2 _ _ _ Hal).
    apply aligned_key_matched; [exact Hal|exact Hex|].
    intros t. apply select_e_sub.
Qed.

Lemma diff_from_estat_by_position_witness :
  exists g,
    diff_from_estat scenario_v scenario_e !! dict_key "TargetMatch" "RIC_RT"
    = Some g
    /\ map measured g = select_v scenario_v "TargetMatch" "RIC_RT"
    /\ by_position (select_v scenario_v "TargetMatch" "RIC_RT")
         (select_e scenario_e "RIC_RT"
            (select_v scenario_v "TargetMatch" "RIC_RT")) g
    /\ Forall (key_matched scenario_e) g.
Proof.
  destruct (diff_from_estat_by_position scenario_v scenario_e
              "TargetMatch" "RIC_RT") as [(g & Hg & Hm & Hp & Hk) _].
  - repeat constructor.
  - now left.
  - exists g. split; [exact Hg|]. split; [exact Hm|]. split; [exact Hp|].
    apply Hk.
    + repeat constructor.
    + repeat constructor; vm_compute; discriminate.
Defined.

(** *** The differences between conditions *)

Lemma diff_from_endstudy_eq (vd : list vrow) :
  diff_from_endstudy vd
  = let all_conds :=
      List.filter
        (fun r => contains
                    (unique (map subject
                               (List.filter
                                  (fun r => String.eqb (condition r) "EndStudy")
                                  vd)))
                    (subject r)) vd in
    store_all
      (entries
         (List.filter (fun c => String.eqb c "TargetMatch")
            (unique (map condition vd)))
         (unique (map form_factor vd))
         (fun c f =>
            assign_diffs
              (between_diff (same_index (select_v all_conds c f)
                               (select_v all_conds "EndStudy" f)))
              (select_v all_conds c f) (select_v all_conds "EndStudy" f)))
      ∅.
Proof.
  unfold diff_from_endstudy. cbv zeta.
  rewrite (fold_left_if (fun c => String.eqb c "TargetMatch")
             (fun d cond => fold_left _ (unique (map form_factor vd)) d)).
  now rewrite nested_store.
Qed.

(** The EndStudy variant does restrict its groups: a row in one of them
    is a TargetMatch row of a subject that has an EndStudy row. *)
Lemma endstudy_rows_have_both (vd : list vrow) (k : string)
    (g : list dev) (d : dev) :
  diff_from_endstudy vd !! k = Some g -> In d g ->
  In (measured d) vd
  /\ condition (measured d) = "TargetMatch"
  /\ exists r, In r vd /\ subject r = subject (measured d)
               /\ condition r = "EndStudy".
Proof.
  rewrite diff_from_endstudy_eq. cbv zeta. intros Hk Hd.
  apply store_all_lookup_Some in Hk as [Hk|Hk];
    [|rewrite lookup_empty in Hk; discriminate].
  apply in_entries in Hk as (c & f & Hc & _ & _ & ->).
  apply filter_In in Hc as [_ Hc]. apply String.eqb_eq in Hc. subst c.
  apply (in_map measured) in Hd. rewrite assign_diffs_measured in Hd.
  apply filter_In in Hd as [Hall Hcf].
  apply andb_true_iff in Hcf as [Hcond _]. apply String.eqb_eq in Hcond.
  apply filter_In in Hall as [Hin Hsub].
  split; [exact Hin|]. split; [exact Hcond|].
  apply contains_In, in_unique, in_map_iff in Hsub as (r & Hs & Hr).
  apply filter_In in Hr as [Hr He]. apply String.eqb_eq in He.
  exists r. auto.
Qed.

(** C7, the BestFit variant at [lone_target_match]: S1 has no BestFit
    row, yet its TargetMatch row is in the group, with the BestFit
    levels of S2 subtracted; the row of S2 is left without difference. *)
Theorem bestfit_diff_keeps_lone_subject :
  ~ In "S1" (map subject (select_v lone_target_match "BestFit" "RIC_RT"))
  /\ diff_between_bestfit_targetmatch lone_target_match
       !! dict_key "TargetMatch" "RIC_RT"
     = Some [ Dev (VRow "S1" "TargetMatch" "RIC_RT" 1000 50 52)
                (Some 13%Z) (Some 14%Z);
              Dev (VRow "S2" "TargetMatch" "RIC_RT" 1000 60 61)
                None None ].
Proof.
  split.
  - simpl. intros [H|[]]. discriminate.
  - vm_compute. reflexivity.
Qed.

(** *** Collapsing, then differences *)

Lemma eqb_allRIC_customs : String.eqb "WirelessCustoms" "allRIC" = false.
Proof. reflexivity. Qed.

(** The measured selection of the collapsed run for (cond, allRIC). *)
Lemma collapsed_select_v (vd : list vrow) (c : string) :
  select_v (collapse_verifit vd) c "allRIC"
  = map (set_form_factor "allRIC") (ric_measured vd c).
Proof.
  unfold select_v, collapse_verifit, ric_measured. cbv zeta.
  rewrite List.filter_app, !filter_map_swap. cbn [condition form_factor set_form_factor].
  rewrite (filter_none
             (fun x => String.eqb (condition x) c
                       && String.eqb "WirelessCustoms" "allRIC")).
  2:{ intros r _. rewrite eqb_allRIC_customs. apply andb_false_r. }
  cbn [map]. rewrite app_nil_r, filter_twice. f_equal.
  apply filter_ext. intros r. rewrite String.eqb_refl, andb_true_r.
  apply andb_comm.
Qed.

Lemma subjects_relabelled (b : string) (v : list vrow) :
  map subject (map (set_form_factor b) v) = map subject v.
Proof. rewrite map_map. reflexivity. Qed.

(** The target selection of the collapsed run. *)
Lemma collapsed_select_e (ed : list erow) (v : list vrow) :
  select_e (collapse_estat ed) "allRIC" (map (set_form_factor "allRIC") v)
  = map (eset_form_factor "allRIC") (ric_targets ed v).
Proof.
  unfold select_e, collapse_estat, ric_targets. cbv zeta.
  rewrite subjects_relabelled, List.filter_app, !filter_map_swap.
  cbn [esubject eform_factor eset_form_factor].
  rewrite (filter_none
             (fun x => String.eqb "WirelessCustoms" "allRIC"
                       && contains (unique (map subject v)) (esubject x))).
  2:{ intros r _. rewrite eqb_allRIC_customs. reflexivity. }
  cbn [map]. rewrite app_nil_r, filter_twice. reflexivity.
Qed.

Lemma assign_diffs_relabel (same : bool) (b : string) (v : list vrow)
    (e : list erow) :
  assign_diffs (estat_diff same) (map (set_form_factor b) v)
    (map (eset_form_factor b) e)
  = map (relabel_dev b) (assign_diffs (estat_diff same) v e).
Proof.
  revert e. induction v as [|m v IH]; intros e; [reflexivity|].
  destruct e as [|t e]; cbn [map assign_diffs].
  - rewrite <- (IH []). reflexivity.
  - rewrite IH. reflexivity.
Qed.

(** The measured selection of the plain run for a RIC form factor. *)
Lemma plain_select_v (vd : list vrow) (c f : string) :
  In f RICS ->
  select_v vd c f
  = List.filter (fun r => String.eqb (form_factor r) f) (ric_measured vd c).
Proof.
  intros Hf. unfold select_v, ric_measured. rewrite filter_twice.
  apply filter_ext. intros r.
  destruct (String.eqb (form_factor r) f) eqn:E.
  - apply String.eqb_eq in E. rewrite E.
    rewrite (proj2 (contains_In RICS f) Hf). now rewrite !andb_true_r.
  - now rewrite !andb_false_r.
Qed.

Lemma in_subjects (v : list vrow) (s : string) :
  contains (unique (map subject v)) s = true
  <-> exists m, In m v /\ subject m = s.
Proof.
  rewrite contains_In, in_unique, in_map_iff.
  split; intros (m & H1 & H2); exists m; auto.
Qed.

(** When the RIC rows of the condition face targets of their own
    subject and form factor, the target selection of the plain run is
    the part of the collapsed one with that form factor. *)
Lemma plain_select_e (vd : list vrow) (ed : list erow) (c f : string) :
  In f RICS ->
  Forall2 same_owner (ric_measured vd c)
    (ric_targets ed (ric_measured vd c)) ->
  select_e ed f (select_v vd c f)
  = List.filter (fun t => String.eqb (eform_factor t) f)
      (ric_targets ed (ric_measured vd c)).
Proof.
  intros Hf Hal. unfold select_e. unfold ric_targets.
  rewrite filter_twice. apply filter_ext_in. intros t Ht.
  destruct (String.eqb (eform_factor t) f) eqn:E;
    [|now rewrite andb_false_r].
  apply String.eqb_eq in E. rewrite andb_true_r. cbn [andb].
  rewrite E, (proj2 (contains_In RICS f) Hf). cbn [andb].
  rewrite (plain_select_v vd c f Hf).
  destruct (contains (unique (map subject (ric_measured vd c))) (esubject t))
    eqn:Ev.
  - apply in_subjects.
    assert (Hin : In t (ric_targets ed (ric_measured vd c))).
    { unfold ric_targets. apply filter_In. split; [exact Ht|].
      now rewrite E, (proj2 (contains_In RICS f) Hf), Ev. }
    destruct (Forall2_in_r _ _ _ _ Hal Hin) as (m & Hm & Hs & Hff).
    exists m. split; [|exact Hs].
    apply filter_In. split; [exact Hm|].
    apply String.eqb_eq. congruence.
  - apply not_true_is_false. intros Ef.
    apply in_subjects in Ef as (m & Hm & Hs).
    apply filter_In in Hm as [Hm _].
    assert (contains (unique (map subject (ric_measured vd c))) (esubject t)
            = true) by (apply in_subjects; eauto).
    congruence.
Qed.

Lemma assign_diffs_filter (same : bool) (f : string) (v : list vrow)
    (e : list erow) :
  Forall2 same_owner v e ->
  assign_diffs (estat_diff same)
    (List.filter (fun r => String.eqb (form_factor r) f) v)
    (List.filter (fun t => String.eqb (eform_factor t) f) e)
  = List.filter (fun d => String.eqb (form_factor (measured d)) f)
      (assign_diffs (estat_diff same) v e).
Proof.
  induction 1 as [|m t v e [_ Hff] _ IH]; [reflexivity|].
  cbn [List.filter assign_diffs measured]. rewrite <- Hff.
  destruct (String.eqb (form_factor m) f); cbn [assign_diffs];
    now rewrite IH.
Qed.

Lemma same_owner_filter (f : string) (v : list vrow) (e : list erow) :
  Forall2 same_owner v e ->
  Forall2 same_owner
    (List.filter (fun r => String.eqb (form_factor r) f) v)
    (List.filter (fun t => String.eqb (eform_factor t) f) e).
Proof.
  induction 1 as [|m t v e Ho _ IH]; [constructor|].
  cbn [List.filter]. destruct Ho as [Hs Hff]. rewrite <- Hff.
  destruct (String.eqb (form_factor m) f); [|exact IH].
  constructor; [split; assumption|exact IH].
Qed.

Lemma ric_measured_forms (vd : list vrow) (ed : list erow) (c : string)
    (same : bool) (d : dev) :
  In d (assign_diffs (estat_diff same) (ric_measured vd c)
          (ric_targets ed (ric_measured vd c))) ->
  In (form_factor (measured d)) RICS.
Proof.
  intros Hd. apply (in_map measured) in Hd.
  rewrite assign_diffs_measured in Hd.
  apply filter_In in Hd as [_ Hd]. apply andb_true_iff in Hd as [_ Hd].
  now apply contains_In.
Qed.

Lemma collapsed_group_aligned (vd : list vrow) (ed : list erow) (c : string) :
  Forall (fun r => no_underscore (condition r) = true) vd ->
  In c (map condition vd) ->
  Forall2 same_owner (ric_measured vd c)
    (ric_targets ed (ric_measured vd c)) ->
  collapse_preserves_groups vd ed c.
Proof.
  intros Hplain Hc Hal. unfold collapse_preserves_groups. cbv zeta.
  assert (Hcp : no_underscore c = true).
  { apply in_map_iff in Hc as (r & <- & Hr).
    rewrite List.Forall_forall in Hplain. now apply Hplain. }
  assert (Hplain' : Forall (fun r => no_underscore (condition r) = true)
                      (collapse_verifit vd)).
  { apply List.Forall_forall. intros r Hr.
    unfold collapse_verifit in Hr. cbv zeta in Hr.
    rewrite List.Forall_forall in Hplain.
    apply in_app_or in Hr as [Hr|Hr];
      apply in_map_iff in Hr as (r0 & <- & Hr0);
      apply filter_In in Hr0 as [Hr0 _]; simpl; now apply Hplain. }
  rewrite !group_diff_from_estat by assumption.
  rewrite collapsed_select_v, collapsed_select_e.
  unfold same_index at 1. rewrite !length_map.
  fold (same_index (ric_measured vd c) (ric_targets ed (ric_measured vd c))).
  rewrite assign_diffs_relabel.
  apply Permutation_map.
  rewrite !plain_select_e by (assumption || (simpl; tauto)).
  rewrite !plain_select_v by (simpl; tauto).
  rewrite !(same_index_Forall2 _ _ _ (same_owner_filter _ _ _ Hal)).
  rewrite (same_index_Forall2 _ _ _ Hal).
  rewrite !assign_diffs_filter by assumption.
  apply filter_three_perm. intros d Hd.
  apply ric_measured_forms in Hd. simpl in Hd.
  destruct Hd as [<-|[<-|[<-|[]]]]; auto.
Qed.

Example crossed_collapsed_group :
  group (diff_from_estat (collapse_verifit crossed_v)
           (collapse_estat crossed_e))
    (dict_key "TargetMatch" "allRIC")
  = [ Dev (VRow "S1" "TargetMatch" "allRIC" 1000 50 52)
        (Some 10%Z) (Some 11%Z);
      Dev (VRow "S2" "TargetMatch" "allRIC" 1000 60 61)
        (Some 15%Z) (Some 11%Z) ].
Proof. vm_compute. reflexivity. Qed.

Example crossed_plain_groups :
  let d := diff_from_estat crossed_v crossed_e in
  group d (dict_key "TargetMatch" "RIC_RT")
  ++ group d (dict_key "TargetMatch" "RIC312")
  ++ group d (dict_key "TargetMatch" "MRIC")
  = [ Dev (VRow "S1" "TargetMatch" "RIC_RT" 1000 50 52)
        (Some 5%Z) (Some 2%Z);
      Dev (VRow "S2" "TargetMatch" "MRIC" 1000 60 61)
        (Some 20%Z) (Some 20%Z) ].
Proof. vm_compute. reflexivity. Qed.

(** C6, as stated, fails: in [crossed_v], [crossed_e] each form factor
    alone pairs every subject with its own target (differences 5, 2 and
    20, 20), while the collapsed run pairs S1 with the target of S2 and
    S2 with that of S1 (10, 11 and 15, 11). *)
Lemma crossed_tables_change_diffs :
  ~ collapse_preserves_groups crossed_v crossed_e "TargetMatch".
Proof.
  unfold collapse_preserves_groups. cbv zeta.
  rewrite crossed_collapsed_group.
  pose proof crossed_plain_groups as Hp. cbv zeta in Hp. rewrite Hp.
  intros H.
  apply (Permutation_in
           (Dev (VRow "S1" "TargetMatch" "allRIC" 1000 50 52)
              (Some 10%Z) (Some 11%Z))) in H; [|now left].
  simpl in H. destruct H as [H|[H|[]]]; discriminate.
Qed.

(** C6, amended. When the condition labels contain no underscore and,
    within a condition, the RIC rows of the measured table and the RIC
    target rows of their subjects line up row for row, each measured row
    facing a target row of its own subject and form factor, the group
    [condition_allRIC] of the collapsed run is the union of the groups
    of RIC_RT, RIC312 and MRIC of the plain run, relabelled allRIC,
    with the same differences. *)
Theorem collapse_preserves_aligned_groups (vd : list vrow)
    (ed : list erow) (cond : string) :
  Forall (fun r => no_underscore (condition r) = true) vd ->
  In cond (map condition vd) ->
  Forall2 same_owner (ric_measured vd cond)
    (ric_targets ed (ric_measured vd cond)) ->
  collapse_preserves_groups vd ed cond.
Proof. apply collapsed_group_aligned. Qed.

Lemma collapse_preserves_aligned_groups_witness :
  collapse_preserves_groups crossed_v uncrossed_e "TargetMatch".
Proof.
  apply (collapse_preserves_aligned_groups crossed_v uncrossed_e
           "TargetMatch").
  - repeat constructor.
  - now left.
  - vm_compute. repeat constructor.
Defined.

End RemFacts.

(** ** DAM, further properties *)

Module DamMore.
Import Dam PyFacts DamFacts.

(** *** [organize_data] on a table that was organized before *)

Lemma organize_data_refused (h : heap) (data : ref) (df : DataFrame) :
  h !! data = Some df -> is_Some (col_comparison df) ->
  organize_data data h = (h, Raise ValueError).
Proof.
  intros Hh [c Hc].
  assert (Htot : h !!! data = df) by exact (lookup_total_correct _ _ _ Hh).
  unfold organize_data, insert_comparison, mbind, M_bind, bind, read,
    raise.
  cbv beta iota. rewrite !Htot, Hc. reflexivity.
Qed.

(** X1. A second call of [organize_data] on the table a first call
    organized raises [ValueError] ([DataFrame.insert] refuses the
    comparison column that is already there) and leaves the store as the
    first call left it. *)
Theorem organize_data_twice (h : heap) (data : ref) (rs : list raw_row) :
  h !! data = Some (raw_frame rs) ->
  Forall (fun r => well_named r = true) rs ->
  Forall (fun r => known_comparison r = true) rs ->
  organize_data data (organize_data data h).1
  = ((organize_data data h).1, Raise ValueError).
Proof.
  intros Hh Hn Hk. rewrite (organize_data_ok _ _ _ Hh Hn Hk). cbn [fst].
  apply (organize_data_refused _ _ (organized rs)).
  - apply lookup_insert_eq.
  - unfold organized. cbn. eauto.
Qed.

Lemma organize_data_twice_witness :
  organize_data 0 (organize_data 0 sample_heap).1
  = ((organize_data 0 sample_heap).1, Raise ValueError).
Proof.
  apply (organize_data_twice sample_heap 0%nat [sample_row]).
  - reflexivity.
  - repeat constructor.
  - repeat constructor.
Defined.

(** X2. A failed call is not undone. When an audio-file name is too
    short the caller's table keeps the new comparison column (as
    [button_A-button_B], not turned) and has none of the other three;
    when a comparison is unknown the table has all four new columns and
    the comparison column still holds the raw labels. *)
Theorem organize_data_failure_leaves_columns (h : heap) (data : ref)
    (rs : list raw_row) :
  h !! data = Some (raw_frame rs) ->
  (Exists (fun r => well_named r = false) rs ->
     (organize_data data h).1 !! data = Some (after_index_error rs))
  /\ (Forall (fun r => well_named r = true) rs ->
      Exists (fun r => known_comparison r = false) rs ->
      (organize_data data h).1 !! data = Some (after_key_error rs)).
Proof.
  intros Hh. split.
  - intros Hbad. rewrite (organize_data_unfold _ _ _ Hh). cbv zeta.
    rewrite (series_apply_raise (fun z => getitem z 4) IndexError).
    + cbn [fst]. apply lookup_insert_eq.
    + intros z e. apply getitem_only_IndexError.
    + apply List.Exists_exists in Hbad as (r & Hin & Hr).
      apply List.Exists_exists. exists (tokens r). split.
      * now apply in_map.
      * now rewrite (getitem4_raise r Hr).
  - intros Hnamed Hbad. rewrite (organize_data_unfold _ _ _ Hh). cbv zeta.
    rewrite (series_apply_ok (fun z => getitem z 4) (fun z => nth 4 z "")).
    2:{ apply List.Forall_map. eapply List.Forall_impl; [|exact Hnamed].
        intros r Hr. exact (getitem4_ok r Hr). }
    rewrite (series_apply_ok (fun z => getitem z 0) (fun z => nth 0 z "")).
    2:{ apply List.Forall_map. apply List.Forall_forall. intros r _.
        exact (getitem0_ok r). }
    rewrite (series_apply_raise (dict_getitem COMPARISONS) KeyError).
    + cbn [fst]. rewrite lookup_insert_eq. unfold after_key_error.
      now rewrite !map_map.
    + intros k e. apply dict_getitem_only_KeyError.
    + apply List.Exists_exists in Hbad as (r & Hin & Hr).
      apply List.Exists_exists. exists (raw_comparison r). split.
      * now apply in_map.
      * exact (canon_raise r Hr).
Qed.

Lemma organize_data_failure_leaves_columns_witness :
  (organize_data 0 {[ 0%nat := raw_frame [short_name_row] ]}).1 !! 0%nat
  = Some (after_index_error [short_name_row])
  /\ (organize_data 0 {[ 0%nat := raw_frame [unknown_buttons_row] ]}).1
       !! 0%nat
     = Some (after_key_error [unknown_buttons_row]).
Proof.
  split.
  - apply (organize_data_failure_leaves_columns _ 0%nat [short_name_row]).
    + reflexivity.
    + repeat constructor.
  - apply (organize_data_failure_leaves_columns _ 0%nat
             [unknown_buttons_row]).
    + reflexivity.
    + repeat constructor.
    + repeat constructor.
Defined.

(** *** The output of [remove_incomplete_datasets] *)

Lemma group_size_perm (d d' : list drow) (r : drow) :
  Permutation d d' -> group_size d r = group_size d' r.
Proof.
  intros H. unfold group_size. apply Permutation_length.
  now apply filter_perm.
Qed.

Lemma group_size_complete_part (data : list drow) (r : drow) :
  complete data r = true ->
  group_size (List.filter (complete data) data) r = group_size data r.
Proof.
  intros Hr. unfold group_size. rewrite filter_twice. f_equal.
  apply filter_ext. intros x. destruct (same_group r x) eqn:E.
  - unfold complete in *.
    rewrite <- (same_group_size data r x E), Hr. reflexivity.
  - apply andb_false_r.
Qed.

Lemma output_groups_of_four (data : list drow) (r : drow) :
  In r (remove_incomplete_datasets data) ->
  group_size (remove_incomplete_datasets data) r = 4.
Proof.
  intros Hr. rewrite (group_size_perm _ _ r (remove_incomplete_perm data)).
  apply survives_iff in Hr as [_ H4].
  rewrite group_size_complete_part; [exact H4|].
  unfold complete. now apply Nat.eqb_eq.
Qed.

(** X3. In the table [remove_incomplete_datasets] returns every row
    has exactly three companions: counted in the output itself, each
    group has four members. *)
Theorem remove_incomplete_datasets_output_groups (data : list drow)
    (r : drow) :
  In r (remove_incomplete_datasets data) ->
  group_size (remove_incomplete_datasets data) r = 4.
Proof. apply output_groups_of_four. Qed.

Lemma remove_incomplete_datasets_output_groups_witness :
  group_size (remove_incomplete_datasets partial_table) (trial "1" "pref")
  = 4.
Proof.
  apply (remove_incomplete_datasets_output_groups partial_table
           (trial "1" "pref")).
  vm_compute. now left.
Defined.

(** *** [organize_data], then [remove_incomplete_datasets] *)

Lemma combine_maps {A B C} (f : A -> B) (g : A -> C) (l : list A) :
  combine (map f l) (map g l) = map (fun x => (f x, g x)) l.
Proof. induction l as [|a l IH]; simpl; [reflexivity|]. now rewrite IH. Qed.

Lemma combine_self {A B} (g : A -> B) (l : list A) :
  combine l (map g l) = map (fun x => (x, g x)) l.
Proof. induction l as [|a l IH]; simpl; [reflexivity|]. now rewrite IH. Qed.

Lemma records_organized (rs : list raw_row) :
  records (organized rs) = Some (map organize_row rs).
Proof.
  unfold records, organized. cbn [col_comparison col_snr col_tracks
    col_type rows].
  rewrite !combine_maps, combine_self, map_map. reflexivity.
Qed.

Lemma is_pref_organize_row (r : raw_row) :
  is_pref (organize_row r) = negb (contains NOISE_TRACKS (track_of r)).
Proof.
  unfold is_pref, organize_row, type_of_track. cbn [type].
  now destruct (contains NOISE_TRACKS (track_of r)).
Qed.

Lemma same_group_organize_row (r r' : raw_row) :
  same_group (organize_row r) (organize_row r') = raw_same_group r r'.
Proof.
  unfold same_group, raw_same_group. rewrite !is_pref_organize_row.
  unfold has_index, index_of, organize_row.
  cbn [d_raw comparison snr].
  rewrite <- !andb_assoc. f_equal.
  { now destruct (contains NOISE_TRACKS (track_of r)),
                 (contains NOISE_TRACKS (track_of r')). }
  repeat case_bool_decide; simplify_eq; try reflexivity;
    exfalso; congruence.
Qed.

Lemma group_size_organize_row (rs : list raw_row) (r : raw_row) :
  group_size (map organize_row rs) (organize_row r) = raw_group_size rs r.
Proof.
  unfold group_size, raw_group_size. rewrite filter_map_swap, length_map.
  f_equal. apply filter_ext. intros x. apply same_group_organize_row.
Qed.

(** X5. The two steps of the DAM script composed. On a raw table with
    well-formed rows, [organize_data] leaves a table whose rows are the
    organized raw rows, and [remove_incomplete_datasets] keeps of them,
    up to order, those made from a raw row that has exactly four raw
    rows in its group: same subject, condition and SNR token, same
    comparison once turned to its canonical direction, and both noise
    trials or both not. *)
Theorem organize_then_remove (h : heap) (data : ref) (rs : list raw_row) :
  h !! data = Some (raw_frame rs) ->
  Forall (fun r => well_named r = true) rs ->
  Forall (fun r => known_comparison r = true) rs ->
  exists df,
    (organize_data data h).1 !! data = Some df
    /\ records df = Some (map organize_row rs)
    /\ Permutation
         (remove_incomplete_datasets (map organize_row rs))
         (map organize_row
            (List.filter (fun r => Nat.eqb (raw_group_size rs r) 4) rs)).
Proof.
  intros Hh Hn Hk. exists (organized rs).
  rewrite (organize_data_ok _ _ _ Hh Hn Hk). cbn [fst].
  split; [apply lookup_insert_eq|]. split; [apply records_organized|].
  etransitivity; [apply remove_incomplete_perm|].
  rewrite filter_map_swap.
  rewrite (filter_ext (fun x => complete (map organize_row rs) (organize_row x))
             (fun r => Nat.eqb (raw_group_size rs r) 4)); [reflexivity|].
  intros x. unfold complete. now rewrite group_size_organize_row.
Qed.

Lemma organize_then_remove_witness :
  exists df,
    (organize_data 0 {[ 0%nat := raw_frame (repeat sample_row 4) ]}).1
      !! 0%nat = Some df
    /\ records df = Some (map organize_row (repeat sample_row 4))
    /\ Permutation
         (remove_incomplete_datasets
            (map organize_row (repeat sample_row 4)))
         (map organize_row
            (List.filter
               (fun r => Nat.eqb (raw_group_size (repeat sample_row 4) r) 4)
               (repeat sample_row 4))).
Proof.
  apply (organize_then_remove _ 0%nat (repeat sample_row 4)).
  - reflexivity.
  - repeat constructor.
  - repeat constructor.
Defined.

(** *** Mirrored comparisons *)

Lemma hyphen_cuts_complete (a b s : string) :
  (a ++ "-" ++ b)%string = s -> In (a, b) (hyphen_cuts s).
Proof.
  revert s. induction a as [|c a IH]; intros s <-; simpl.
  - now left.
  - apply in_or_app. right. apply in_map_iff.
    exists (a, b). split; [reflexivity|]. now apply IH.
Qed.

(** X14. Mirrored comparisons are merged: when [button_A-button_B] is
    a key of [COMPARISONS], so is [button_B-button_A], and the two have
    the same canonical label. *)
Theorem mirrored_comparisons_merge (a b x : string) :
  COMPARISONS !! (a ++ "-" ++ b)%string = Some x ->
  COMPARISONS !! (b ++ "-" ++ a)%string = Some x.
Proof.
  unfold COMPARISONS at 1. intros H.
  apply elem_of_list_to_map_2 in H.
  repeat (apply elem_of_cons in H as [H|H];
          [ injection H as Hk Hx; subst x;
            apply hyphen_cuts_complete in Hk; simpl in Hk;
            repeat (destruct Hk as [Hk|Hk];
                    [injection Hk as <- <-; vm_compute; reflexivity|]);
            destruct Hk
          |]).
  inversion H.
Qed.

Lemma mirrored_comparisons_merge_witness :
  COMPARISONS !! ("DAM_OFF" ++ "-" ++ "DAM_3")%string
  = Some "DAM_OFF-DAM_3".
Proof.
  apply (mirrored_comparisons_merge "DAM_3" "DAM_OFF").
  vm_compute. reflexivity.
Defined.

End DamMore.

(** ** The order of strings and of index entries *)

Module OrderFacts.
Import Dam Rem PyFacts DamFacts.

Lemma ascii_compare_refl (a : ascii) : Ascii.compare a a = Eq.
Proof. unfold Ascii.compare. apply N.compare_refl. Qed.

Lemma ascii_compare_lt_trans (a b c : ascii) :
  Ascii.compare a b = Lt -> Ascii.compare b c = Lt ->
  Ascii.compare a c = Lt.
Proof.
  unfold Ascii.compare. rewrite !N.compare_lt_iff. apply N.lt_trans.
Qed.

Lemma string_compare_refl (s : string) : String.compare s s = Eq.
Proof.
  induction s as [|a s IH]; simpl; [reflexivity|].
  now rewrite ascii_compare_refl.
Qed.

Lemma string_compare_eq (s t : string) : String.compare s t = Eq -> s = t.
Proof. apply String.compare_eq_iff. Qed.

Lemma string_compare_lt_trans (s t u : string) :
  String.compare s t = Lt -> String.compare t u = Lt ->
  String.compare s u = Lt.
Proof.
  revert t u. induction s as [|a s IH]; intros [|b t] [|c u];
    simpl; try congruence.
  destruct (Ascii.compare a b) eqn:Eab; try discriminate;
    destruct (Ascii.compare b c) eqn:Ebc; try discriminate.
  - apply Ascii.compare_eq_iff in Eab, Ebc. subst.
    rewrite ascii_compare_refl. apply IH.
  - apply Ascii.compare_eq_iff in Eab. subst. now rewrite Ebc.
  - apply Ascii.compare_eq_iff in Ebc. subst. now rewrite Eab.
  - now rewrite (ascii_compare_lt_trans a b c Eab Ebc).
Qed.

Lemma string_compare_gt_lt (s t : string) :
  String.compare s t = Gt -> String.compare t s = Lt.
Proof.
  intros H. rewrite String.compare_antisym, H. reflexivity.
Qed.

Lemma string_leb_refl (s : string) : String.leb s s = true.
Proof. unfold String.leb. now rewrite string_compare_refl. Qed.

Lemma string_leb_trans (s t u : string) :
  String.leb s t = true -> String.leb t u = true -> String.leb s u = true.
Proof.
  unfold String.leb.
  destruct (String.compare s t) eqn:Est; try discriminate;
    destruct (String.compare t u) eqn:Etu; try discriminate; intros _ _.
  - apply string_compare_eq in Est, Etu. subst.
    now rewrite string_compare_refl.
  - apply string_compare_eq in Est. subst. now rewrite Etu.
  - apply string_compare_eq in Etu. subst. now rewrite Est.
  - now rewrite (string_compare_lt_trans s t u Est Etu).
Qed.

(** One level of a lexicographic comparison. *)
Ltac lex_level s t u :=
  let Est := fresh "Est" in
  let Etu := fresh "Etu" in
  destruct (String.compare s t) eqn:Est; try discriminate;
  destruct (String.compare t u) eqn:Etu; try discriminate;
  [ apply string_compare_eq in Est, Etu; subst;
    rewrite string_compare_refl
  | apply string_compare_eq in Est; subst; rewrite Etu; reflexivity
  | apply string_compare_eq in Etu; subst; rewrite Est; reflexivity
  | rewrite (string_compare_lt_trans s t u Est Etu); reflexivity ].

Lemma key_leb_trans (a b c : key) :
  key_leb a b = true -> key_leb b c = true -> key_leb a c = true.
Proof.
  destruct a as [[[s1 c1] n1] d1], b as [[[s2 c2] n2] d2],
    c as [[[s3 c3] n3] d3].
  unfold key_leb. intros H1 H2.
  lex_level s1 s2 s3. lex_level c1 c2 c3. lex_level n1 n2 n3.
  now apply (string_leb_trans _ d2).
Qed.

Lemma key_leb_total (a b : key) : key_leb a b = true \/ key_leb b a = true.
Proof.
  destruct a as [[[s1 c1] n1] d1], b as [[[s2 c2] n2] d2].
  unfold key_leb.
  destruct (String.compare s1 s2) eqn:E1;
    [|now left|right; now rewrite (string_compare_gt_lt _ _ E1)].
  apply string_compare_eq in E1. subst. rewrite string_compare_refl.
  destruct (String.compare c1 c2) eqn:E2;
    [|now left|right; now rewrite (string_compare_gt_lt _ _ E2)].
  apply string_compare_eq in E2. subst. rewrite string_compare_refl.
  destruct (String.compare n1 n2) eqn:E3;
    [|now left|right; now rewrite (string_compare_gt_lt _ _ E3)].
  apply string_compare_eq in E3. subst. rewrite string_compare_refl.
  apply String.leb_total.
Qed.

Lemma index_le_transitive : Transitive index_le.
Proof.
  intros x y z. unfold index_le. rewrite !Is_true_true.
  apply key_leb_trans.
Qed.

Lemma index_le_total : Total index_le.
Proof.
  intros x y. unfold index_le. rewrite !Is_true_true.
  apply key_leb_total.
Qed.

Lemma pair_leb_trans (a b c : string * string) :
  pair_leb a b = true -> pair_leb b c = true -> pair_leb a c = true.
Proof.
  destruct a as [s1 f1], b as [s2 f2], c as [s3 f3].
  unfold pair_leb. cbn [fst snd]. intros H1 H2.
  lex_level s1 s2 s3. now apply (string_leb_trans _ f2).
Qed.

Lemma pair_leb_total (a b : string * string) :
  pair_leb a b = true \/ pair_leb b a = true.
Proof.
  destruct a as [s1 f1], b as [s2 f2]. unfold pair_leb. cbn [fst snd].
  destruct (String.compare s1 s2) eqn:E1;
    [|now left|right; now rewrite (string_compare_gt_lt _ _ E1)].
  apply string_compare_eq in E1. subst. rewrite string_compare_refl.
  apply String.leb_total.
Qed.

Lemma pair_le_transitive : Transitive pair_le.
Proof.
  intros x y z. unfold pair_le. rewrite !Is_true_true.
  apply pair_leb_trans.
Qed.

Lemma pair_le_total : Total pair_le.
Proof.
  intros x y. unfold pair_le. rewrite !Is_true_true. apply pair_leb_total.
Qed.

Lemma StronglySorted_filter {A} (R : A -> A -> Prop) (p : A -> bool)
    (l : list A) :
  StronglySorted R l -> StronglySorted R (List.filter p l).
Proof.
  induction 1 as [|a l Hs IH Hall]; simpl; [constructor|].
  destruct (p a); [|exact IH]. constructor; [exact IH|].
  apply List.Forall_forall. intros x Hx. apply filter_In in Hx as [Hx _].
  rewrite List.Forall_forall in Hall. now apply Hall.
Qed.

Lemma key_leb_refl (a : key) : key_leb a a = true.
Proof.
  destruct a as [[[s c] n] d]. unfold key_leb.
  rewrite !string_compare_refl. apply string_leb_refl.
Qed.

Lemma string_compare_lt_gt (s t : string) :
  String.compare s t = Lt -> String.compare t s = Gt.
Proof. intros H. rewrite String.compare_antisym, H. reflexivity. Qed.

Lemma key_leb_antisym (a b : key) :
  key_leb a b = true -> key_leb b a = true -> a = b.
Proof.
  destruct a as [[[s1 c1] n1] d1], b as [[[s2 c2] n2] d2].
  unfold key_leb.
  destruct (String.compare s1 s2) eqn:E1; [| |discriminate].
  2:{ rewrite (string_compare_lt_gt _ _ E1). discriminate. }
  apply string_compare_eq in E1. subst. rewrite string_compare_refl.
  destruct (String.compare c1 c2) eqn:E2; [| |discriminate].
  2:{ rewrite (string_compare_lt_gt _ _ E2). discriminate. }
  apply string_compare_eq in E2. subst. rewrite string_compare_refl.
  destruct (String.compare n1 n2) eqn:E3; [| |discriminate].
  2:{ rewrite (string_compare_lt_gt _ _ E3). discriminate. }
  apply string_compare_eq in E3. subst. rewrite string_compare_refl.
  intros H1 H2. now rewrite (String.leb_antisym _ _ H1 H2).
Qed.

(** *** [sort_index] sorts, and is stable *)

Lemma insert_row_sorted (r : drow) (df : list drow) :
  StronglySorted index_le df -> StronglySorted index_le (insert_row r df).
Proof.
  induction 1 as [|x df Hs IH Hall]; cbn [insert_row].
  - repeat constructor.
  - destruct (key_leb (index_of r) (index_of x)) eqn:E.
    + assert (Hrx : index_le r x) by (unfold index_le; now rewrite E).
      constructor; [now constructor|]. constructor; [exact Hrx|].
      eapply List.Forall_impl; [|exact Hall].
      intros y Hy. now apply (index_le_transitive r x y).
    + assert (Hxr : index_le x r).
      { destruct (index_le_total x r) as [H|H]; [exact H|].
        unfold index_le in H. now rewrite E in H. }
      constructor; [exact IH|].
      apply List.Forall_forall. intros y Hy.
      apply (Permutation_in _ (insert_row_perm r df)) in Hy.
      destruct Hy as [<-|Hy]; [exact Hxr|].
      rewrite List.Forall_forall in Hall. now apply Hall.
Qed.

Lemma sort_index_sorted (df : list drow) :
  StronglySorted index_le (sort_index df).
Proof.
  unfold sort_index. induction df as [|r df IH]; cbn [fold_right].
  - constructor.
  - now apply insert_row_sorted.
Qed.

Lemma insert_row_stable (k : key) (r : drow) (df : list drow) :
  List.filter (has_index k) (insert_row r df)
  = List.filter (has_index k) (r :: df).
Proof.
  induction df as [|x df IH]; cbn [insert_row]; [reflexivity|].
  destruct (key_leb (index_of r) (index_of x)) eqn:E; [reflexivity|].
  cbn [List.filter] in *. rewrite IH.
  destruct (has_index k r) eqn:Er, (has_index k x) eqn:Ex; try reflexivity.
  apply has_index_true in Er, Ex.
  rewrite Er, Ex, key_leb_refl in E. discriminate.
Qed.

Lemma sort_index_stable (k : key) (df : list drow) :
  List.filter (has_index k) (sort_index df) = List.filter (has_index k) df.
Proof.
  unfold sort_index. induction df as [|r df IH]; cbn [fold_right];
    [reflexivity|].
  rewrite insert_row_stable. cbn [List.filter]. now rewrite IH.
Qed.

(** *** In a sorted table the rows of an entry are neighbours *)

Lemma filter_nil_none {A} (p : A -> bool) (l : list A) :
  List.filter p l = [] -> Forall (fun x => p x = false) l.
Proof.
  intros H. apply List.Forall_forall. intros x Hx.
  destruct (p x) eqn:E; [|reflexivity].
  assert (Hin : In x (List.filter p l)) by (apply filter_In; auto).
  rewrite H in Hin. destruct Hin.
Qed.

Lemma sorted_adjacent (l : list drow) :
  StronglySorted index_le l -> adjacent_groups l.
Proof.
  intros Hs k. induction Hs as [|a l Hs IH Hall].
  - exists [], []. repeat split; constructor.
  - destruct IH as (b & af & Hl & Hb & Ha). cbn [List.filter].
    destruct (has_index k a) eqn:Ek.
    + destruct (List.filter (has_index k) l) as [|x F] eqn:EF.
      * exists [], l. split; [reflexivity|]. split; [constructor|].
        now apply filter_nil_none.
      * destruct b as [|y b].
        -- exists [], af. split; [|split; [constructor|exact Ha]].
           cbn [app] in *. now rewrite <- Hl.
        -- exfalso.
           assert (Hx : has_index k x = true).
           { assert (Hin : In x (List.filter (has_index k) l))
               by (rewrite EF; now left).
             now apply filter_In in Hin. }
           assert (Hay : index_le a y).
           { rewrite List.Forall_forall in Hall. apply Hall.
             rewrite Hl. now left. }
           assert (Hyx : index_le y x).
           { rewrite Hl in Hs. cbn [app] in Hs.
             apply StronglySorted_inv in Hs as [_ Hy].
             rewrite List.Forall_forall in Hy. apply Hy.
             apply in_or_app. right. now left. }
           apply has_index_true in Ek, Hx.
           unfold index_le in Hay, Hyx. rewrite Ek in Hay. rewrite Hx in Hyx.
           apply Is_true_true in Hay, Hyx.
           pose proof (key_leb_antisym _ _ Hay Hyx) as Hk.
           inversion Hb as [|? ? Hy _]; subst.
           unfold has_index in Hy. rewrite <- Hk in Hy.
           now rewrite bool_decide_eq_true_2 in Hy.
    + exists (a :: b), af. split; [|split; [now constructor|exact Ha]].
      cbn [app]. f_equal. exact Hl.
Qed.

Lemma clean_sorted (df : list drow) : StronglySorted index_le (clean df).
Proof.
  rewrite clean_spec. apply StronglySorted_filter, sort_index_sorted.
Qed.

Lemma clean_sub (df : list drow) (r : drow) : In r (clean df) -> In r df.
Proof.
  rewrite clean_spec. intros H. apply filter_In in H as [H _].
  apply (Permutation_in _ (sort_index_perm df)). exact H.
Qed.

Lemma clean_in_input_order (df : list drow) :
  groups_in_input_order df (clean df).
Proof.
  intros k. rewrite clean_spec, filter_twice.
  rewrite (filter_ext _ (fun r => Nat.eqb (rows_at df k) 4 && has_index k r)).
  2:{ intros r. unfold four_at. destruct (has_index k r) eqn:E.
      - apply has_index_true in E. now rewrite E, !andb_true_r.
      - now rewrite !andb_false_r. }
  destruct (Nat.eqb (rows_at df k) 4); cbn [andb].
  - rewrite (filter_ext _ (has_index k)) by reflexivity.
    apply sort_index_stable.
  - apply filter_none. reflexivity.
Qed.

(** X6. The table [remove_incomplete_datasets] returns lists the pref
    rows first and the other rows after them. In each of the two parts
    the rows of one entry (subject, comparison, snr, condition) stand
    next to each other, and they are the four rows the part of the
    input has under that entry, in their input order; an entry with
    another number of rows has none. *)
Theorem remove_incomplete_datasets_layout (data : list drow) :
  exists prefs noise,
    remove_incomplete_datasets data = prefs ++ noise
    /\ Forall (fun r => is_pref r = true) prefs
    /\ Forall (fun r => is_pref r = false) noise
    /\ adjacent_groups prefs
    /\ adjacent_groups noise
    /\ groups_in_input_order (List.filter is_pref data) prefs
    /\ groups_in_input_order
         (List.filter (fun r => negb (is_pref r)) data) noise.
Proof.
  exists (clean (List.filter is_pref data)),
         (clean (List.filter (fun r => negb (is_pref r)) data)).
  split; [reflexivity|].
  split; [|split; [|split; [|split; [|split]]]].
  - apply List.Forall_forall. intros r Hr. apply clean_sub in Hr.
    now apply filter_In in Hr.
  - apply List.Forall_forall. intros r Hr. apply clean_sub in Hr.
    apply filter_In in Hr as [_ Hr]. now destruct (is_pref r).
  - apply sorted_adjacent, clean_sorted.
  - apply sorted_adjacent, clean_sorted.
  - apply clean_in_input_order.
  - apply clean_in_input_order.
Qed.

Example mixed_table_cleaned :
  remove_incomplete_datasets mixed_table
  = [ answer "1" "a"; answer "1" "b"; answer "1" "c"; answer "1" "d";
      answer "2" "a"; answer "2" "b"; answer "2" "c"; answer "2" "d" ].
Proof. vm_compute. reflexivity. Qed.

End OrderFacts.

(** ** REM, further properties *)

Module RemMore.
Import Rem PyFacts RemFacts OrderFacts.

(** *** The keys of the dict of groups *)

Lemma store_all_domain {V} (l : list (string * V)) (k : string) :
  is_Some (store_all l ∅ !! k) <-> In k (map fst l).
Proof.
  split.
  - intros [v Hv]. apply store_all_lookup_Some in Hv as [Hv|Hv].
    + apply in_map_iff. now exists (k, v).
    + rewrite lookup_empty in Hv. discriminate.
  - apply store_all_is_Some.
Qed.

Lemma in_entries_keys {V} (conds forms : list string)
    (g : string -> string -> V) (k : string) :
  In k (map fst (entries conds forms g))
  <-> exists c f, In c conds /\ In f forms /\ k = dict_key c f.
Proof.
  rewrite in_map_iff. split.
  - intros ([k' v] & Hk & Hin). simpl in Hk. subst k'.
    apply in_entries in Hin as (c & f & Hc & Hf & -> & _). eauto.
  - intros (c & f & Hc & Hf & ->). exists (dict_key c f, g c f).
    split; [reflexivity|]. apply in_entries. eauto 8.
Qed.

(** X7. The keys [_diff_from_estat] stores are the names
    [condition_form] for every condition and every form factor of the
    measured table, whether or not the two occur together in a row, and
    no other: the look-ups [estat_diffs[cond + '_' + form]] of [analyze],
    which walk the same two lists, never miss. *)
Theorem diff_from_estat_keys (vd : list vrow) (ed : list erow) (k : string) :
  is_Some (diff_from_estat vd ed !! k)
  <-> exists c f, In c (map condition vd) /\ In f (map form_factor vd)
                  /\ k = dict_key c f.
Proof.
  rewrite diff_from_estat_eq, store_all_domain, in_entries_keys.
  split; intros (c & f & Hc & Hf & Hk); exists c, f;
    (split; [|split]); try assumption; now apply in_unique.
Qed.

(** *** Row counts that differ *)

Lemma assign_diffs_split {B} (d : vrow -> B -> Z * Z) (v : list vrow)
    (o : list B) :
  Forall both_diffs (take (length o) (assign_diffs d v o))
  /\ Forall no_diffs (drop (length o) (assign_diffs d v o)).
Proof.
  revert o. induction v as [|m v IH]; intros o.
  - rewrite assign_diffs_nil, take_nil, drop_nil. split; constructor.
  - destruct o as [|t o]; cbn [assign_diffs length].
    + rewrite take_0, drop_0. split; [constructor|].
      constructor; [split; reflexivity|].
      destruct (IH []) as [_ H]. now rewrite drop_0 in H.
    + cbn [take drop]. destruct (IH o) as [H1 H2]. split; [|exact H2].
      constructor; [|exact H1]. split; cbn; eauto.
Qed.

(** X8. When a pair has fewer selected target rows than measured rows,
    [_diff_from_estat] drops nothing and shortens nothing: the group
    holds all the measured rows of the pair, the first ones (as many as
    there are target rows) with both differences, the remaining ones
    with NaN in both; target rows in excess are ignored. *)
Theorem diff_from_estat_row_counts (vd : list vrow) (ed : list erow)
    (cond form : string) :
  Forall (fun r => no_underscore (condition r) = true) vd ->
  In cond (map condition vd) -> In form (map form_factor vd) ->
  exists g,
    diff_from_estat vd ed !! dict_key cond form = Some g
    /\ map measured g = select_v vd cond form
    /\ Forall both_diffs
         (take (length (select_e ed form (select_v vd cond form))) g)
    /\ Forall no_diffs
         (drop (length (select_e ed form (select_v vd cond form))) g).
Proof.
  intros Hplain Hc Hf.
  exists (assign_diffs
            (estat_diff (same_index (select_v vd cond form)
                           (select_e ed form (select_v vd cond form))))
            (select_v vd cond form)
            (select_e ed form (select_v vd cond form))).
  split; [|split; [apply assign_diffs_measured|apply assign_diffs_split]].
  rewrite diff_from_estat_eq, entries_lookup; [reflexivity| | |].
  - now apply plain_conditions.
  - now apply in_unique.
  - now apply in_unique.
Qed.

Lemma diff_from_estat_row_counts_witness :
  exists g,
    diff_from_estat swapped_v scenario_e !! dict_key "TargetMatch" "RIC_RT"
    = Some g
    /\ map measured g = select_v swapped_v "TargetMatch" "RIC_RT"
    /\ Forall both_diffs
         (take (length (select_e scenario_e "RIC_RT"
                          (select_v swapped_v "TargetMatch" "RIC_RT"))) g)
    /\ Forall no_diffs
         (drop (length (select_e scenario_e "RIC_RT"
                          (select_v swapped_v "TargetMatch" "RIC_RT"))) g).
Proof.
  apply (diff_from_estat_row_counts swapped_v scenario_e
           "TargetMatch" "RIC_RT").
  - repeat constructor.
  - now left.
  - now left.
Defined.

(** *** The groups of the two intra-Verifit methods *)






(** *** Collapsing twice *)

(** X11. Collapsing is not idempotent: the labels allRIC and
    WirelessCustoms are not among the six that are kept, so collapsing
    the collapsed tables leaves no row in either. *)
Theorem collapse_collapsed_is_empty (v : list vrow) (e : list erow) :
  collapse_verifit (collapse_verifit v) = []
  /\ collapse_estat (collapse_estat e) = [].
Proof.
  split.
  - unfold collapse_verifit at 1. cbv zeta.
    rewrite !(filter_none _ (collapse_verifit v)); [reflexivity| |];
      intros r Hr;
      pose proof (collapse_verifit_labels v) as Hl;
      rewrite List.Forall_forall in Hl;
      destruct (Hl r Hr) as [-> | ->]; reflexivity.
  - unfold collapse_estat at 1. cbv zeta.
    rewrite !(filter_none _ (collapse_estat e)); [reflexivity| |];
      intros r Hr;
      pose proof (collapse_estat_labels e) as Hl;
      rewrite List.Forall_forall in Hl;
      destruct (Hl r Hr) as [-> | ->]; reflexivity.
Qed.

(** *** [_assign_form_factors]: what a failure leaves, which form
    factor wins *)

Lemma assign_rows_stops (temp : gmap string string) (l1 : list vrow)
    (r : vrow) (l2 pre : list vrow) :
  Forall (fun x => is_Some (temp !! subject x)) l1 ->
  temp !! subject r = None ->
  assign_rows temp (seq (length pre) (length l1 + S (length l2)))
    (pre ++ l1 ++ r :: l2)
  = (pre ++ map (assigned temp) l1 ++ r :: l2, Raise KeyError).
Proof.
  intros Hall Hr. revert pre.
  induction Hall as [|a l1 [f Hf] _ IH]; intros pre.
  - cbn [app length Nat.add seq assign_rows map].
    rewrite (list_lookup_middle pre l2 r (length pre) eq_refl).
    unfold dict_getitem. now rewrite Hr.
  - cbn [app length Nat.add seq assign_rows map].
    rewrite (list_lookup_middle pre _ a (length pre) eq_refl).
    unfold dict_getitem. rewrite Hf.
    rewrite insert_app_r_alt, Nat.sub_diag by lia. cbn [insert list_insert].
    assert (Hlen : S (length pre) = length (pre ++ [set_form_factor f a]))
      by (rewrite length_app; simpl; lia).
    rewrite Hlen.
    change (pre ++ set_form_factor f a :: l1 ++ r :: l2)
      with (pre ++ [set_form_factor f a] ++ l1 ++ r :: l2).
    rewrite (app_assoc pre [_]). rewrite IH.
    rewrite <- app_assoc. cbn [app]. unfold assigned at 2.
    now rewrite Hf.
Qed.

(** X12. When [_assign_form_factors] raises, the Verifit table is left
    half filled: the rows before the first one whose subject the e-STAT
    table lacks have their form factor, that row and the rows after it
    are as they were. *)
Theorem assign_form_factors_stops_midway (self : DataModel)
    (l1 : list vrow) (r : vrow) (l2 : list vrow) :
  vdf self = l1 ++ r :: l2 ->
  Forall (fun x => In (subject x) (map esubject (edf self))) l1 ->
  ~ In (subject r) (map esubject (edf self)) ->
  _assign_form_factors self
  = (set_vdf (map (assigned (form_factor_dict (edf self))) l1 ++ r :: l2)
       self,
     Raise KeyError).
Proof.
  intros Hv Hall Hr. unfold _assign_form_factors. cbv zeta.
  rewrite Hv, length_app. cbn [length].
  rewrite (assign_rows_stops _ l1 r l2 []); [reflexivity| |].
  - eapply List.Forall_impl; [|exact Hall].
    intros x Hx. now apply form_factor_dict_known.
  - now apply form_factor_dict_unknown.
Qed.

Lemma assign_form_factors_stops_midway_witness :
  _assign_form_factors (new_model unknown_subject_v scenario_e)
  = (set_vdf
       (map (assigned (form_factor_dict scenario_e))
          [VRow "S1" "TargetMatch" "" 1000 50 52]
        ++ VRow "S3" "TargetMatch" "" 1000 60 61 :: [])
       (new_model unknown_subject_v scenario_e),
     Raise KeyError).
Proof.
  apply (assign_form_factors_stops_midway
           (new_model unknown_subject_v scenario_e)
           [VRow "S1" "TargetMatch" "" 1000 50 52]
           (VRow "S3" "TargetMatch" "" 1000 60 61) []).
  - reflexivity.
  - repeat constructor.
  - simpl. intros [H|[]]. discriminate.
Defined.

Lemma store_all_last {V} (l : list (string * V)) (d : gmap string V)
    (k : string) (v : V) :
  In k (map fst l) -> store_all l d !! k = Some v ->
  exists l1 l2, l = l1 ++ (k, v) :: l2 /\ ~ In k (map fst l2).
Proof.
  unfold store_all. revert d.
  induction l as [|[k' v'] l IH]; intros d Hin Hv; simpl in *;
    [contradiction|].
  destruct (in_dec string_dec k (map fst l)) as [Hl|Hl].
  - destruct (IH _ Hl Hv) as (l1 & l2 & -> & Hno).
    exists ((k', v') :: l1), l2. auto.
  - fold (store_all l (<[k':=v']> d)) in Hv.
    rewrite store_all_lookup_absent in Hv by exact Hl.
    destruct Hin as [->|Hin]; [|contradiction].
    rewrite lookup_insert_eq in Hv. inversion Hv; subst.
    exists [], l. auto.
Qed.

Lemma form_factor_dict_greatest (e : list erow) (s f : string) (t : erow) :
  form_factor_dict e !! s = Some f -> In t e -> esubject t = s ->
  String.leb (eform_factor t) f = true.
Proof.
  rewrite form_factor_dict_eq. intros Hf Ht Hs.
  set (l := merge_sort pair_le
              (unique (map (fun t => (esubject t, eform_factor t)) e))) in *.
  assert (Hin : In (s, eform_factor t) l).
  { apply in_sorted_pairs. exists t. auto. }
  assert (Hsorted : StronglySorted pair_le l).
  { apply (@StronglySorted_merge_sort _ pair_le _ pair_le_transitive
             pair_le_total). }
  destruct (store_all_last l ∅ s f) as (l1 & l2 & Hl & Hno);
    [apply in_map_iff; now exists (s, eform_factor t)|exact Hf|].
  rewrite Hl in Hin, Hsorted.
  apply in_app_or in Hin as [Hin|[Hin|Hin]].
  - apply list_elem_of_In in Hin.
    assert (Hle : pair_le (s, eform_factor t) (s, f)).
    { eapply StronglySorted_app_1_elem_of; [exact Hsorted|exact Hin|].
      apply list_elem_of_In. now left. }
    unfold pair_le, pair_leb in Hle. cbn [fst snd] in Hle.
    rewrite string_compare_refl in Hle. now apply Is_true_true.
  - inversion Hin; subst. apply string_leb_refl.
  - exfalso. apply Hno. apply in_map_iff. now exists (s, eform_factor t).
Qed.

(** X13. When the e-STAT table lists several form factors for a
    subject, [_assign_form_factors] gives the subject's Verifit rows the
    one that comes last in string order (the groupby sorts the pairs and
    the dict keeps the last): every form factor the e-STAT table has for
    the subject is at most the one assigned. *)
Theorem assign_form_factors_last_wins (self : DataModel) :
  (forall r, In r (vdf self) -> In (subject r) (map esubject (edf self))) ->
  Forall
    (fun r' => forall t, In t (edf self) -> esubject t = subject r' ->
                 String.leb (eform_factor t) (form_factor r') = true)
    (vdf (_assign_form_factors self).1).
Proof.
  intros Hall. rewrite (assign_form_factors_ok self Hall).
  cbn [fst vdf set_vdf]. apply List.Forall_map, List.Forall_forall.
  intros r Hr t Ht Hs. unfold assigned in *. cbn [subject form_factor
    set_form_factor] in *.
  destruct (form_factor_dict_known (edf self) (subject r) (Hall r Hr))
    as [f Hf].
  rewrite Hf. cbn [default]. now apply (form_factor_dict_greatest _ _ _ t Hf).
Qed.

Lemma assign_form_factors_last_wins_witness :
  Forall
    (fun r' => forall t, In t two_forms_e -> esubject t = subject r' ->
                 String.leb (eform_factor t) (form_factor r') = true)
    (vdf (_assign_form_factors (new_model scenario_v two_forms_e)).1).
Proof.
  apply (assign_form_factors_last_wins (new_model scenario_v two_forms_e)).
  simpl. intros r [<-|[]]. now left.
Defined.

Example two_form_factors_last_one :
  vdf (_assign_form_factors (new_model scenario_v two_forms_e)).1
  = [VRow "S1" "TargetMatch" "RIC_RT" 1000 50 52]
  /\ vdf (_assign_form_factors
            (new_model scenario_v (rev two_forms_e))).1
     = [VRow "S1" "TargetMatch" "RIC_RT" 1000 50 52].
Proof. split; vm_compute; reflexivity. Qed.

(** *** The groups partition the measured table *)

Section SplitByValue.
Context {A K : Type} `{EqDecision K} (key : A -> K).

Lemma split_skip (a : A) (l : list A) (ks : list K) :
  ~ In (key a) ks ->
  flat_map (fun k => List.filter (fun x => bool_decide (key x = k)) (a :: l))
    ks
  = flat_map (fun k => List.filter (fun x => bool_decide (key x = k)) l) ks.
Proof.
  induction ks as [|k ks IH]; intros Hno; [reflexivity|].
  cbn [flat_map]. rewrite IH by (intros Hin; apply Hno; now right).
  cbn [List.filter].
  rewrite bool_decide_eq_false_2 by (intros E; apply Hno; now left).
  reflexivity.
Qed.

Lemma split_take (a : A) (l : list A) (ks : list K) :
  List.NoDup ks -> In (key a) ks ->
  Permutation
    (flat_map (fun k => List.filter (fun x => bool_decide (key x = k))
                          (a :: l)) ks)
    (a :: flat_map (fun k => List.filter (fun x => bool_decide (key x = k)) l)
            ks).
Proof.
  induction 1 as [|k ks Hk Hnd IH]; intros Hin; [destruct Hin|].
  cbn [flat_map]. destruct (decide (key a = k)) as [E|E].
  - rewrite split_skip by (rewrite E; exact Hk).
    cbn [List.filter]. rewrite bool_decide_eq_true_2 by exact E.
    reflexivity.
  - destruct Hin as [Hin|Hin]; [congruence|].
    rewrite (IH Hin). cbn [List.filter].
    rewrite bool_decide_eq_false_2 by exact E.
    symmetry. apply Permutation_middle.
Qed.

(** A table is its parts by the values of a column, put together. *)
Lemma split_by_value (l : list A) (ks : list K) :
  List.NoDup ks -> (forall x, In x l -> In (key x) ks) ->
  Permutation
    (flat_map (fun k => List.filter (fun x => bool_decide (key x = k)) l) ks)
    l.
Proof.
  intros Hnd. induction l as [|a l IH]; intros Hall.
  - clear. induction ks as [|k ks IH]; [constructor|exact IH].
  - rewrite split_take; [|exact Hnd|apply Hall; now left].
    constructor. apply IH. intros x Hx. apply Hall. now right.
Qed.

End SplitByValue.

Lemma flat_map_perm_ext {A B} (f g : A -> list B) (l : list A) :
  (forall x, In x l -> Permutation (f x) (g x)) ->
  Permutation (flat_map f l) (flat_map g l).
Proof.
  induction l as [|a l IH]; intros H; simpl; [constructor|].
  apply Permutation_app; [apply H; now left|].
  apply IH. intros x Hx. apply H. now right.
Qed.

Lemma flat_map_map {A B C} (f : B -> list C) (g : A -> B) (l : list A) :
  flat_map f (map g l) = flat_map (fun x => f (g x)) l.
Proof. induction l as [|a l IH]; simpl; [reflexivity|]. now rewrite IH. Qed.

Lemma flat_map_flat_map {A B C} (f : B -> list C) (g : A -> list B)
    (l : list A) :
  flat_map f (flat_map g l) = flat_map (fun x => flat_map f (g x)) l.
Proof.
  induction l as [|a l IH]; simpl; [reflexivity|].
  now rewrite flat_map_app, IH.
Qed.

Lemma store_all_to_list {V} (l : list (string * V)) (d : gmap string V) :
  List.NoDup (map fst l) ->
  (forall k, In k (map fst l) -> d !! k = None) ->
  Permutation (map_to_list (store_all l d)) (l ++ map_to_list d).
Proof.
  unfold store_all. revert d.
  induction l as [|[k v] l IH]; intros d Hnd Hfresh; [reflexivity|].
  cbn [fold_left map fst snd] in *.
  inversion Hnd as [|? ? Hk Hnd']; subst.
  rewrite IH.
  - rewrite map_to_list_insert by (apply Hfresh; now left).
    symmetry. cbn [app]. apply Permutation_middle.
  - exact Hnd'.
  - intros k' Hk'. rewrite lookup_insert_ne.
    + apply Hfresh. now right.
    + intros ->. contradiction.
Qed.

Lemma dict_key_inj_form (c f f' : string) :
  dict_key c f = dict_key c f' -> f = f'.
Proof.
  unfold dict_key. induction c as [|a c IH]; simpl; intros H.
  - now inversion H.
  - inversion H. auto.
Qed.

Lemma entries_keys_NoDup {V} (conds forms : list string)
    (g : string -> string -> V) :
  Forall (fun c => no_underscore c = true) conds ->
  List.NoDup conds -> List.NoDup forms ->
  List.NoDup (map fst (entries conds forms g)).
Proof.
  intros Hplain Hc Hf. unfold entries.
  induction Hc as [|c conds Hnotin Hc IH]; [constructor|].
  cbn [flat_map]. rewrite map_app, map_map. cbn [fst].
  inversion Hplain as [|? ? Hpc Hplain']; subst.
  apply List.NoDup_app.
  - clear -Hf. induction Hf as [|f forms Hn Hf IH]; [constructor|].
    cbn [map]. constructor; [|exact IH].
    intros Hin. apply in_map_iff in Hin as (f' & Heq & Hf').
    apply dict_key_inj_form in Heq. now subst.
  - now apply IH.
  - intros k Hk1 Hk2.
    apply in_map_iff in Hk1 as (f & <- & Hf1).
    apply (in_entries_keys conds forms g) in Hk2
      as (c' & f' & Hc' & _ & Heq).
    rewrite List.Forall_forall in Hplain'.
    destruct (dict_key_inj c c' f f') as [-> _]; auto.
Qed.

Lemma eqb_bool_decide (a b : string) :
  String.eqb a b = bool_decide (a = b).
Proof.
  destruct (String.eqb a b) eqn:E.
  - apply String.eqb_eq in E. now rewrite bool_decide_eq_true_2.
  - apply String.eqb_neq in E. now rewrite bool_decide_eq_false_2.
Qed.

Lemma measured_rows_of_entries (vd : list vrow) (ed : list erow)
    (conds forms : list string) :
  flat_map (fun kv : string * list dev => map measured kv.2)
    (entries conds forms
       (fun c f =>
          assign_diffs
            (estat_diff (same_index (select_v vd c f)
                           (select_e ed f (select_v vd c f))))
            (select_v vd c f) (select_e ed f (select_v vd c f))))
  = flat_map (fun c => flat_map (fun f => select_v vd c f) forms) conds.
Proof.
  unfold entries. rewrite flat_map_flat_map. apply flat_map_ext.
  intros c. rewrite flat_map_map. apply flat_map_ext. intros f.
  cbn [snd]. apply assign_diffs_measured.
Qed.

Lemma select_v_partition (vd : list vrow) :
  Permutation
    (flat_map (fun c => flat_map (fun f => select_v vd c f)
                          (unique (map form_factor vd)))
       (unique (map condition vd)))
    vd.
Proof.
  etransitivity; [|apply (split_by_value condition vd
                            (unique (map condition vd)))].
  - apply flat_map_perm_ext. intros c _.
    etransitivity;
      [|apply (split_by_value form_factor _ (unique (map form_factor vd)))].
    + apply flat_map_perm_ext. intros f _. unfold select_v.
      rewrite filter_twice.
      rewrite (filter_ext _ (fun x => bool_decide (condition x = c)
                                       && bool_decide (form_factor x = f)));
        [reflexivity|].
      intros r. now rewrite !eqb_bool_decide.
    + apply NoDup_unique.
    + intros r Hr. apply filter_In in Hr as [Hr _].
      apply in_unique. now apply in_map.
  - apply NoDup_unique.
  - intros r Hr. apply in_unique. now apply in_map.
Qed.

(** X15. With condition labels that contain no underscore, the groups
    of [_diff_from_estat] partition the measured table: put together (as
    [write_estat_diffs] does) they hold every measured row exactly once,
    none lost and none repeated. *)
Theorem diff_from_estat_partition (vd : list vrow) (ed : list erow) :
  Forall (fun r => no_underscore (condition r) = true) vd ->
  Permutation
    (flat_map (fun kv : string * list dev => map measured kv.2)
       (map_to_list (diff_from_estat vd ed)))
    vd.
Proof.
  intros Hplain. rewrite diff_from_estat_eq.
  rewrite store_all_to_list.
  - rewrite map_to_list_empty, app_nil_r, measured_rows_of_entries.
    apply select_v_partition.
  - apply entries_keys_NoDup; [now apply plain_conditions| |];
      apply NoDup_unique.
  - intros k _. apply lookup_empty.
Qed.

Lemma diff_from_estat_partition_witness :
  Permutation
    (flat_map (fun kv : string * list dev => map measured kv.2)
       (map_to_list (diff_from_estat crossed_v crossed_e)))
    crossed_v.
Proof.
  apply (diff_from_estat_partition crossed_v crossed_e).
  repeat constructor.
Defined.

(** *** Subject and condition out of the file name *)

Lemma split_tokens_plain (s : string) :
  Forall (fun t => no_underscore t = true) (split "_" s).
Proof.
  induction s as [|c s IH]; cbn [split]; [repeat constructor|].
  destruct (Ascii.eqb c "_") eqn:E; [constructor; [reflexivity|exact IH]|].
  destruct (split "_" s) as [|t ts]; [repeat constructor; cbn; now rewrite E|].
  inversion IH as [|? ? Ht Hts]; subst.
  constructor; [|exact Hts]. cbn. now rewrite E, Ht.
Qed.

Lemma join_split (s : string) : String.concat "_" (split "_" s) = s.
Proof.
  induction s as [|c s IH]; cbn [split]; [reflexivity|].
  pose proof (split_nonempty "_" s) as Hne.
  destruct (Ascii.eqb c "_") eqn:E.
  - apply Ascii.eqb_eq in E. subst c.
    destruct (split "_" s) as [|t ts]; [contradiction|].
    cbn [String.concat] in *. now rewrite IH.
  - destruct (split "_" s) as [|t ts]; [contradiction|].
    cbn [String.concat] in *. destruct ts; cbn [String.append]; now rewrite <- IH.
Qed.

Lemma cells_of_name (name : string) :
  List.length (split "_" name) <= 2 ->
  name_cells name
    (mjoin (nth_error (pad_tokens 2 (split "_" name)) 0))
    (mjoin (nth_error (pad_tokens 2 (split "_" name)) 1)).
Proof.
  intros Hlen. pose proof (split_nonempty "_" name) as Hne.
  pose proof (split_tokens_plain name) as Hplain.
  pose proof (join_split name) as Hjoin.
  destruct (split "_" name) as [|a [|b [|c ts]]];
    [contradiction| | |simpl in Hlen; lia].
  - left. exists a. inversion Hplain; subst. cbn in *. auto.
  - right. exists a, b.
    inversion Hplain as [|? ? Ha Hrest]; subst.
    inversion Hrest; subst. cbn in *. auto.
Qed.

Lemma two_columns_cells (names : list string)
    (cols : list (option string * option string)) :
  two_columns (str_split_expand "_" names) = Ok cols ->
  Forall2 (fun n sc => name_cells n sc.1 sc.2) names cols.
Proof.
  unfold two_columns, str_split_expand. cbv zeta. cbn [fst snd].
  destruct (Nat.eqb _ 2) eqn:E; [|discriminate].
  apply Nat.eqb_eq in E. intros H. inversion H; subst cols. clear H.
  rewrite E, !map_map. apply Forall2_map_self. intros n Hn. cbn [fst snd].
  apply cells_of_name.
  assert (Hle : expand_width (map (split "_") names) <= 2) by lia.
  unfold expand_width in Hle. apply list_max_le in Hle.
  rewrite List.Forall_forall in Hle. apply Hle.
  rewrite map_map. now apply (in_map (fun x => List.length (split "_" x))).
Qed.

Lemma two_columns_raises (value : nat * list (list (option string)))
    (e : exn) :
  two_columns value = Raise e -> e = ValueError.
Proof.
  unfold two_columns. destruct (Nat.eqb value.1 2); congruence.
Qed.

Lemma two_columns_is_ok (value : nat * list (list (option string))) :
  is_ok (two_columns value) = true <-> value.1 = 2.
Proof.
  unfold two_columns. destruct (Nat.eqb value.1 2) eqn:E; cbn.
  - apply Nat.eqb_eq in E. tauto.
  - apply Nat.eqb_neq in E. split; [discriminate|contradiction].
Qed.

Lemma Forall2_combine_map {A B C} (P : A -> C -> Prop) (Q : A -> B -> Prop)
    (g : A * B -> C) (l : list A) (l' : list B) :
  Forall2 Q l l' -> (forall x y, Q x y -> P x (g (x, y))) ->
  Forall2 P l (map g (combine l l')).
Proof.
  intros H HP. induction H as [|x y l l' Hxy _ IH]; cbn; constructor; auto.
Qed.

Lemma Forall2_map_l {A B C} (P : A -> C -> Prop) (f : B -> A) (l : list B)
    (l' : list C) :
  Forall2 P (map f l) l' -> Forall2 (fun x y => P (f x) y) l l'.
Proof.
  revert l'. induction l as [|x l IH]; intros l' H; inversion H; subst;
    constructor; auto.
Qed.

(** X16. [_organize_verifit_data] goes through exactly when the longest
    file name has two underscore-separated tokens, and raises
    [ValueError] otherwise (also on an empty table, and as soon as one
    name has three tokens). When it goes through, each row keeps its
    frequency and levels, has the empty form factor, and its file name
    is its subject alone (the condition is then missing) or
    [subject_condition]; subject and condition contain no underscore. *)
Theorem organize_verifit_data_spec (raw : list vfile) :
  (is_ok (_organize_verifit_data raw) = true
   <-> expand_width (map (split "_") (map filename raw)) = 2)
  /\ (forall e, _organize_verifit_data raw = Raise e -> e = ValueError)
  /\ (forall rows, _organize_verifit_data raw = Ok rows ->
        Forall2
          (fun f o =>
             name_cells (filename f) (o_subject o) (o_condition o)
             /\ o_form_factor o = "" /\ o_freq o = vfreq f
             /\ o_left65 o = vleft65 f /\ o_right65 o = vright65 f)
          raw rows).
Proof.
  unfold _organize_verifit_data.
  pose proof (two_columns_is_ok (str_split_expand "_" (map filename raw)))
    as Hok.
  pose proof (two_columns_raises (str_split_expand "_" (map filename raw)))
    as Hraise.
  pose proof (two_columns_cells (map filename raw)) as Hcells.
  destruct (two_columns (str_split_expand "_" (map filename raw)))
    as [cols|e0].
  - split; [exact Hok|]. split; [discriminate|].
    intros rows H. inversion H; subst rows. clear H.
    apply (Forall2_combine_map _
             (fun f sc => name_cells (filename f) sc.1 sc.2)).
    + apply (Forall2_map_l
               (fun n (sc : option string * option string) =>
                  name_cells n sc.1 sc.2) filename).
      now apply Hcells.
    + intros f [sv cv] Hn. cbn in *. auto.
  - split; [exact Hok|]. split; [|discriminate].
    intros e H. inversion H; subst. now apply Hraise.
Qed.

(** X17. [_organize_estat_data] goes through exactly when the longest
    file name has two underscore-separated tokens and raises
    [ValueError] otherwise. When it goes through, each row keeps its
    form factor, frequency and targets, and its subject is the file
    name up to its underscore (the whole name if it has none): the
    second token is not kept. *)
Theorem organize_estat_data_spec (raw : list efile) :
  (is_ok (_organize_estat_data raw) = true
   <-> expand_width (map (split "_") (map efilename raw)) = 2)
  /\ (forall e, _organize_estat_data raw = Raise e -> e = ValueError)
  /\ (forall rows, _organize_estat_data raw = Ok rows ->
        Forall2
          (fun f o =>
             (exists junk, name_cells (efilename f) (g_subject o) junk)
             /\ g_form_factor o = f_form_factor f /\ g_freq o = f_freq f
             /\ g_left o = f_left f /\ g_right o = f_right f)
          raw rows).
Proof.
  unfold _organize_estat_data.
  pose proof (two_columns_is_ok (str_split_expand "_" (map efilename raw)))
    as Hok.
  pose proof (two_columns_raises (str_split_expand "_" (map efilename raw)))
    as Hraise.
  pose proof (two_columns_cells (map efilename raw)) as Hcells.
  destruct (two_columns (str_split_expand "_" (map efilename raw)))
    as [cols|e0].
  - split; [exact Hok|]. split; [discriminate|].
    intros rows H. inversion H; subst rows. clear H.
    apply (Forall2_combine_map _
             (fun f sc => name_cells (efilename f) sc.1 sc.2)).
    + apply (Forall2_map_l
               (fun n (sc : option string * option string) =>
                  name_cells n sc.1 sc.2) efilename).
      now apply Hcells.
    + intros f [sv cv] Hn. cbn in *. eauto 6.
  - split; [exact Hok|]. split; [|discriminate].
    intros e H. inversion H; subst. now apply Hraise.
Qed.

Example file_names_with_three_tokens :
  _organize_verifit_data three_token_files = Raise ValueError
  /\ _organize_verifit_data [] = Raise ValueError
  /\ _organize_verifit_data two_token_files
     = Ok [ VOrg (Some "S1") (Some "TargetMatch") "" 1000 50 52;
            VOrg (Some "S2") (Some "BestFit") "" 1000 63 66 ].
Proof. repeat split; vm_compute; reflexivity. Qed.

(** *** The counts of [analyze] *)

Lemma within_mono (c c' : Z) (x : option Z) :
  (c <= c')%Z -> within c x = true -> within c' x = true.
Proof.
  destruct x as [z|]; cbn; [|discriminate].
  rewrite !Z.leb_le. lia.
Qed.

Lemma counts_of_rows (l : list dev) (c : Z) :
  let bools := flat_map (fun d => [within c (left_diff d);
                                   within c (right_diff d)]) l in
  List.length (List.filter (fun b => b) bools)
  + List.length (List.filter negb bools) = 2 * List.length l
  /\ nan_cells l <= List.length (List.filter negb bools).
Proof.
  cbv zeta. unfold nan_cells.
  induction l as [|d l [IH1 IH2]]; [cbn; lia|].
  cbn [flat_map app List.filter]. cbn [List.length] in *.
  destruct (left_diff d) as [x|], (right_diff d) as [y|]; cbn [within];
    repeat match goal with
           | |- context [(Z.abs ?z <=? c)%Z] =>
               destruct (Z.abs z <=? c)%Z
           end; cbn [negb List.length]; lia.
Qed.

Lemma meeting_mono (l : list dev) (c c' : Z) :
  (c <= c')%Z ->
  List.length
    (List.filter (fun b => b)
       (flat_map (fun d => [within c (left_diff d);
                            within c (right_diff d)]) l))
  <= List.length
       (List.filter (fun b => b)
          (flat_map (fun d => [within c' (left_diff d);
                               within c' (right_diff d)]) l)).
Proof.
  intros Hc. induction l as [|d l IH]; [cbn; lia|].
  cbn [flat_map app List.filter].
  pose proof (within_mono c c' (left_diff d) Hc) as Hl.
  pose proof (within_mono c c' (right_diff d) Hc) as Hr.
  destruct (within c (left_diff d)); [rewrite (Hl eq_refl)|];
    (destruct (within c (right_diff d)); [rewrite (Hr eq_refl)|]);
    try destruct (within c' (left_diff d));
    try destruct (within c' (right_diff d));
    cbn [List.length]; lia.
Qed.

(** X18. In [analyze], for a frequency and a ceiling, the ears that
    meet the criterion and those that do not add up to twice the number
    of rows of the group at that frequency; an ear whose difference is
    NaN is counted among those that do not; and raising the ceiling
    never lowers the number of ears that meet it. *)
Theorem analyze_counts (temp : list dev) (cps ceiling : Z) :
  ears_meeting temp cps ceiling + ears_failing temp cps ceiling
  = 2 * List.length (at_freq temp cps)
  /\ nan_cells (at_freq temp cps) <= ears_failing temp cps ceiling
  /\ (forall ceiling', (ceiling <= ceiling')%Z ->
        ears_meeting temp cps ceiling <= ears_meeting temp cps ceiling').
Proof.
  unfold ears_meeting, ears_failing, criterion_bools.
  destruct (counts_of_rows (at_freq temp cps) ceiling) as [H1 H2].
  split; [exact H1|]. split; [exact H2|].
  intros c' Hc. now apply meeting_mono.
Qed.

End RemMore.

(** ** SIN *)

Module SinFacts.
Import Sin PyFacts.

(** *** The new labels *)

Lemma split_one_token (t : string) :
  lacks "_" t = true -> split "_" t = [t].
Proof.
  induction t as [|c t IH]; cbn [lacks split]; [reflexivity|].
  intros H. apply andb_true_iff in H as [Hc Ht].
  apply negb_true_iff in Hc. rewrite Hc, (IH Ht). reflexivity.
Qed.

Lemma split_at_underscore (p t : string) :
  split "_" (p ++ "_" ++ t)%string = split "_" p ++ split "_" t.
Proof.
  induction p as [|c p IH].
  - reflexivity.
  - change (split "_" (String c (p ++ "_" ++ t)%string)
            = split "_" (String c p) ++ split "_" t).
    cbn [split]. rewrite IH. pose proof (split_nonempty "_" p) as Hne.
    destruct (Ascii.eqb c "_"); [reflexivity|].
    destruct (split "_" p) as [|x xs]; [contradiction|reflexivity].
Qed.

Lemma join_with_spaces (p : string) :
  String.concat " " (split "_" p) = spaced p.
Proof.
  induction p as [|c p IH]; cbn [split spaced]; [reflexivity|].
  pose proof (split_nonempty "_" p) as Hne.
  destruct (Ascii.eqb c "_") eqn:E.
  - destruct (split "_" p) as [|x xs]; [contradiction|].
    cbn [String.concat] in *. now rewrite IH.
  - destruct (split "_" p) as [|x xs]; [contradiction|].
    cbn [String.concat] in *.
    destruct xs; cbn [String.append]; now rewrite <- IH.
Qed.

(** X19. The label [organize_data] gives a column is the old label up
    to its last underscore, with the underscores before it turned into
    spaces; a label without underscore becomes the empty label. *)
Theorem reformat_label (p t : string) :
  lacks "_" t = true ->
  reformat t = "" /\ reformat (p ++ "_" ++ t)%string = spaced p.
Proof.
  intros Ht. unfold reformat. split.
  - now rewrite (split_one_token t Ht).
  - rewrite split_at_underscore, (split_one_token t Ht), removelast_last.
    apply join_with_spaces.
Qed.

Lemma reformat_label_witness :
  reformat "PC" = ""
  /\ reformat ("Cond_A_Words" ++ "_" ++ "PC")%string = spaced "Cond_A_Words".
Proof. apply (reformat_label "Cond_A_Words" "PC"). reflexivity. Defined.

(** *** The two tables *)

Section Columns.
Context {V : Type}.

Lemma getitem_columns_skip (n : string) (c : list V) (rest : frame V)
    (names : list string) :
  ~ In n names ->
  getitem_columns ((n, c) :: rest) names = getitem_columns rest names.
Proof.
  unfold getitem_columns. induction names as [|k names IH]; intros Hno;
    [reflexivity|].
  cbn [flat_map]. rewrite IH by (intros H; apply Hno; now right).
  cbn [List.filter fst].
  replace (String.eqb n k) with false; [reflexivity|].
  symmetry. apply String.eqb_neq. intros ->. apply Hno. now left.
Qed.

Lemma getitem_columns_filter (p : string -> bool) (data : frame V) :
  List.NoDup (map fst data) ->
  getitem_columns data (List.filter p (map fst data))
  = List.filter (fun c => p c.1) data.
Proof.
  induction data as [|[n c] rest IH]; intros Hnd; [reflexivity|].
  cbn [map fst] in Hnd. inversion Hnd as [|? ? Hn Hnd']; subst.
  cbn [map fst List.filter].
  assert (Hskip : getitem_columns ((n, c) :: rest)
                    (List.filter p (map fst rest))
                  = List.filter (fun c => p c.1) rest).
  { rewrite getitem_columns_skip; [now apply IH|].
    intros H. apply filter_In in H as [H _]. contradiction. }
  destruct (p n); [|exact Hskip].
  unfold getitem_columns in *. cbn [flat_map]. rewrite Hskip.
  cbn [List.filter fst]. rewrite String.eqb_refl.
  rewrite (filter_none (fun c0 : string * list V => String.eqb c0.1 n) rest);
    [reflexivity|].
  intros x Hx. apply String.eqb_neq. intros E. apply Hn.
  rewrite <- E. now apply in_map.
Qed.

Lemma set_columns_relabel (f : string -> string) (df : frame V) :
  set_columns df (map f (map fst df)) = Ok (map (fun c => (f c.1, c.2)) df).
Proof.
  unfold set_columns. rewrite !length_map, Nat.eqb_refl. f_equal.
  rewrite map_map. induction df as [|c df IH]; cbn; [reflexivity|].
  now rewrite IH.
Qed.

Lemma organize_data_distinct (data : frame V) :
  List.NoDup (map fst data) ->
  organize_data data
  = Ok (relabelled "Words" data, relabelled "Sentences" data).
Proof.
  intros Hnd. unfold organize_data, relabelled. cbv zeta.
  rewrite !(getitem_columns_filter _ data Hnd).
  rewrite !(filter_map_swap _ fst data).
  now rewrite !set_columns_relabel.
Qed.

End Columns.

(** X20. On a table whose column labels are distinct, [organize_data]
    returns two tables: the columns whose label contains "Words" and
    those whose label contains "Sentences", each in the order of the
    input, with its cells untouched and its label reformatted. A column
    with both words in its label is in both tables, one with neither is
    in none. *)
Theorem organize_data_two_tables {V} (data : frame V) :
  List.NoDup (map fst data) ->
  organize_data data
  = Ok (relabelled "Words" data, relabelled "Sentences" data).
Proof. apply organize_data_distinct. Qed.

Lemma organize_data_two_tables_witness :
  organize_data sample_scores
  = Ok (relabelled "Words" sample_scores,
        relabelled "Sentences" sample_scores).
Proof.
  apply (organize_data_two_tables sample_scores).
  repeat constructor; simpl; intuition discriminate.
Defined.

End SinFacts.
